(** * TSCNS: a nanosecond clock derived from the CPU timestamp counter

    A shallow embedding of [src/tscns.h] (class [TSCNS<kCachelineSize>]) and
    the properties of its calibration arithmetic, its sampling routine and its
    seqlock commit sequence.

    Modelling conventions.
    - [int64_t] values are integers of [Z] kept in [-2^63, 2^63) by [wrap64];
      signed arithmetic wraps (two's complement, what the x86-64 target of
      [__builtin_ia32_rdtsc] does).  [uint32_t] values are kept in [0, 2^32)
      by [u32].
    - [double] is IEEE-754 binary64, modelled by [spec_float] with
      [prec = 53] and [emax = 1024]; the operations are those of
      [SpecFloat] (round to nearest, ties to even).
    - [static_cast<int64_t>(double)] is the x86-64 [cvttsd2si] conversion:
      truncation toward zero, and [INT64_MIN] for NaN, infinities and values
      out of range.
    - [rdtsc()] and [rdsysns()] read the environment; the environment is an
      explicit pair of reading sequences with a cursor each.
    - data member accesses are explicit loads and stores of a state monad; a
      store is logged with the value [param_seq_] has when it executes.
      Memory ordering between threads is not modelled: the log is the program
      order of the single writer. *)

From Stdlib Require Import ZArith List Bool Lia Floats.SpecFloat.
Import ListNotations.
Local Open Scope Z_scope.

(** ** Machine integers *)

Definition INT64_MIN : Z := - 2 ^ 63.
Definition INT64_MAX : Z := 2 ^ 63 - 1.

Definition in_int64 (z : Z) : Prop := INT64_MIN <= z <= INT64_MAX.

Definition wrap64 (z : Z) : Z := (z + 2 ^ 63) mod 2 ^ 64 - 2 ^ 63.
Definition add64 (a b : Z) : Z := wrap64 (a + b).
Definition sub64 (a b : Z) : Z := wrap64 (a - b).

Definition u32 (z : Z) : Z := z mod 2 ^ 32.

(** ** Doubles *)

Definition prec : Z := 53.
Definition emax : Z := 1024.

Definition double : Type := spec_float.

Definition fmul : double -> double -> double := SFmul prec emax.
Definition fdiv : double -> double -> double := SFdiv prec emax.
Definition fsub : double -> double -> double := SFsub prec emax.

(** The literal [1.0]. *)
Definition one : double := S754_finite false (2 ^ 52) (-52).

(** Conversion of an [int64_t] operand to [double]. *)
Definition of_int64 (z : Z) : double := binary_normalize prec emax z 0 false.

(** The integer part of a finite double, rounded toward zero. *)
Definition trunc_double (x : double) : option Z :=
  match x with
  | S754_zero _ => Some 0
  | S754_finite s m e => Some (cond_Zopp s (Z.shiftl (Zpos m) e))
  | S754_infinity _ | S754_nan => None
  end.

(** [static_cast<int64_t>(x)]. *)
Definition to_int64 (x : double) : Z :=
  match trunc_double x with
  | Some z => if (INT64_MIN <=? z) && (z <=? INT64_MAX) then z else INT64_MIN
  | None => INT64_MIN
  end.

(** ** The object, its environment and the store log *)

Record TSCNS : Type := mkTSCNS {
  param_seq_ : Z;
  ns_per_tsc_ : double;
  base_tsc_ : Z;
  base_ns_ : Z;
  calibrate_interval_ns_ : Z;
  base_ns_err_ : Z;
  next_calibrate_tsc_ : Z
}.

(** The readings the counter and the system clock will deliver, and how many
    of each have been consumed. *)
Record Clocks : Type := mkClocks {
  tsc_src : nat -> Z;
  tsc_pos : nat;
  sys_src : nat -> Z;
  sys_pos : nat
}.

Inductive field : Type :=
  | F_ns_per_tsc
  | F_base_tsc
  | F_base_ns
  | F_calibrate_interval_ns
  | F_base_ns_err
  | F_next_calibrate_tsc.

(** [EvStore f s]: a plain store to data member [f], executed while
    [param_seq_] holds [s].  [EvSeq s s']: the store to [param_seq_] that
    replaces [s] by [s']. *)
Inductive event : Type :=
  | EvStore (f : field) (seq_now : Z)
  | EvSeq (seq_old seq_new : Z).

Record Machine : Type := mkMachine {
  self : TSCNS;
  env : Clocks;
  log : list event
}.

(** ** The monad: state, and failure when a loop runs out of fuel *)

Definition M (A : Type) : Type := Machine -> option (A * Machine).

Definition ret {A} (a : A) : M A := fun m => Some (a, m).

Definition bind {A B} (c : M A) (k : A -> M B) : M B :=
  fun m => match c m with
           | Some (a, m') => k a m'
           | None => None
           end.

Definition out_of_fuel {A} : M A := fun _ => None.

Notation "x <- c ;; k" := (bind c (fun x => k))
  (at level 61, c at next level, right associativity).
Notation "' p <- c ;; k" := (bind c (fun x => let p := x in k))
  (at level 61, p pattern, c at next level, right associativity).
Notation "c ;;; k" := (bind c (fun _ => k))
  (at level 61, right associativity).

Definition load {A} (f : TSCNS -> A) : M A := fun m => Some (f (self m), m).

Definition store (f : field) (upd : TSCNS -> TSCNS) : M unit :=
  fun m => Some (tt, mkMachine (upd (self m)) (env m)
                               (log m ++ [EvStore f (param_seq_ (self m))])).

Definition set_ns_per_tsc (v : double) (o : TSCNS) : TSCNS :=
  mkTSCNS (param_seq_ o) v (base_tsc_ o) (base_ns_ o)
          (calibrate_interval_ns_ o) (base_ns_err_ o) (next_calibrate_tsc_ o).
Definition set_base_tsc (v : Z) (o : TSCNS) : TSCNS :=
  mkTSCNS (param_seq_ o) (ns_per_tsc_ o) v (base_ns_ o)
          (calibrate_interval_ns_ o) (base_ns_err_ o) (next_calibrate_tsc_ o).
Definition set_base_ns (v : Z) (o : TSCNS) : TSCNS :=
  mkTSCNS (param_seq_ o) (ns_per_tsc_ o) (base_tsc_ o) v
          (calibrate_interval_ns_ o) (base_ns_err_ o) (next_calibrate_tsc_ o).
Definition set_calibrate_interval_ns (v : Z) (o : TSCNS) : TSCNS :=
  mkTSCNS (param_seq_ o) (ns_per_tsc_ o) (base_tsc_ o) (base_ns_ o)
          v (base_ns_err_ o) (next_calibrate_tsc_ o).
Definition set_base_ns_err (v : Z) (o : TSCNS) : TSCNS :=
  mkTSCNS (param_seq_ o) (ns_per_tsc_ o) (base_tsc_ o) (base_ns_ o)
          (calibrate_interval_ns_ o) v (next_calibrate_tsc_ o).
Definition set_next_calibrate_tsc (v : Z) (o : TSCNS) : TSCNS :=
  mkTSCNS (param_seq_ o) (ns_per_tsc_ o) (base_tsc_ o) (base_ns_ o)
          (calibrate_interval_ns_ o) (base_ns_err_ o) v.
Definition set_param_seq (v : Z) (o : TSCNS) : TSCNS :=
  mkTSCNS v (ns_per_tsc_ o) (base_tsc_ o) (base_ns_ o)
          (calibrate_interval_ns_ o) (base_ns_err_ o) (next_calibrate_tsc_ o).

(** [param_seq_.store(v, std::memory_order_release)]. *)
Definition store_param_seq (v : Z) : M unit :=
  fun m => Some (tt, mkMachine (set_param_seq v (self m)) (env m)
                               (log m ++ [EvSeq (param_seq_ (self m)) v])).

(** ** Counter and clock accessors *)

(** [rdtsc]: the 64-bit counter, converted to [int64_t]. *)
Definition rdtsc : M Z :=
  fun m =>
    let c := env m in
    Some (wrap64 (tsc_src c (tsc_pos c)),
          mkMachine (self m)
                    (mkClocks (tsc_src c) (S (tsc_pos c)) (sys_src c) (sys_pos c))
                    (log m)).

(** [rdsysns]: the system clock in nanoseconds since the epoch. *)
Definition rdsysns : M Z :=
  fun m =>
    let c := env m in
    Some (wrap64 (sys_src c (sys_pos c)),
          mkMachine (self m)
                    (mkClocks (tsc_src c) (tsc_pos c) (sys_src c) (S (sys_pos c)))
                    (log m)).

(** ** [syncTime] *)

(** [a[i] = v] on a [std::array]. *)
Fixpoint array_set (i : nat) (v : Z) (a : list Z) : list Z :=
  match a, i with
  | [], _ => []
  | _ :: t, O => v :: t
  | h :: t, S j => h :: array_set j v t
  end.

Definition array_get (a : list Z) (i : nat) : Z := nth i a 0.

(** [for (i = 1; i <= N; i++) { ns[i] = rdsysns(); tsc[i] = rdtsc(); }],
    with [n] iterations left. *)
Fixpoint sample_loop (n i : nat) (tsc ns : list Z) : M (list Z * list Z) :=
  match n with
  | O => ret (tsc, ns)
  | S n' =>
      v <- rdsysns ;;
      t <- rdtsc ;;
      sample_loop n' (S i) (array_set i t tsc) (array_set i v ns)
  end.

(** [for (i = 2; i < N + 1; i++) if (tsc[i] - tsc[i-1] < tsc[best] - tsc[best-1]) best = i;],
    with [n] iterations left. *)
Fixpoint best_loop (n i : nat) (tsc : list Z) (best : nat) : nat :=
  match n with
  | O => best
  | S n' =>
      let best' :=
        if sub64 (array_get tsc i) (array_get tsc (i - 1))
           <? sub64 (array_get tsc best) (array_get tsc (best - 1))
        then i else best in
      best_loop n' (S i) tsc best'
  end.

Definition N : nat := 3.

(** The arrays are not initialised by the source; the slots that are read
    ([tsc[0..N]], [ns[1..N]]) are all written first, so the initial content
    chosen here is never observed. *)
Definition syncTime : M (Z * Z) :=
  let tsc := repeat 0 (N + 1) in
  let ns := repeat 0 (N + 1) in
  t0 <- rdtsc ;;
  let tsc := array_set 0 t0 tsc in
  '(tsc, ns) <- sample_loop N 1 tsc ns ;;
  let best := best_loop (N - 1) 2 tsc 1%nat in
  let tsc_out := Z.shiftr (add64 (array_get tsc best) (array_get tsc (best - 1))) 1 in
  let ns_out := array_get ns best in
  ret (tsc_out, ns_out).

(** ** [saveParam] *)

Definition saveParam (base_tsc sys_ns base_ns_err : Z) (new_ns_per_tsc : double)
  : M unit :=
  store F_base_ns_err (set_base_ns_err base_ns_err) ;;;
  interval <- load calibrate_interval_ns_ ;;
  store F_next_calibrate_tsc
        (set_next_calibrate_tsc
           (add64 base_tsc
                  (to_int64 (fdiv (of_int64 (sub64 interval 1000)) new_ns_per_tsc)))) ;;;
  seq <- load param_seq_ ;;
  let seq := u32 (seq + 1) in
  store_param_seq seq ;;;
  store F_base_tsc (set_base_tsc base_tsc) ;;;
  store F_base_ns (set_base_ns (add64 sys_ns base_ns_err)) ;;;
  store F_ns_per_tsc (set_ns_per_tsc new_ns_per_tsc) ;;;
  let seq := u32 (seq + 1) in
  store_param_seq seq.

(** ** [tsc2ns] *)

(** The value of the expression
    [base_ns_ + static_cast<int64_t>((tsc - base_tsc_) * ns_per_tsc_)]. *)
Definition linear_ns (o : TSCNS) (tsc : Z) : Z :=
  add64 (base_ns_ o)
        (to_int64 (fmul (of_int64 (sub64 tsc (base_tsc_ o))) (ns_per_tsc_ o))).

(** One pass through the body of the [do ... while] loop.  It yields the three
    locals it assigns: [before_seq], the [ns] declared INSIDE the block, and
    [after_seq]. *)
Definition tsc2ns_body (tsc : Z) : M (Z * Z * Z) :=
  s <- load param_seq_ ;;
  let before_seq := Z.land s (2 ^ 32 - 2) in
  o <- load (fun o => o) ;;
  let ns := linear_ns o tsc in
  after_seq <- load param_seq_ ;;
  ret (before_seq, ns, after_seq).

(** The loop.  The [ns] of the body is local to the block and dies with each
    pass: nothing of it leaves the loop. *)
Fixpoint tsc2ns_loop (fuel : nat) (tsc : Z) : M unit :=
  match fuel with
  | O => out_of_fuel
  | S fuel' =>
      '(before_seq, _, after_seq) <- tsc2ns_body tsc ;;
      if before_seq =? after_seq then ret tt else tsc2ns_loop fuel' tsc
  end.

(** [ns_uninit] is the indeterminate content of the function-scope local
    [int64_t ns;], which is declared without an initialiser, is shadowed by
    the declaration inside the loop body, and is what [return ns;] reads. *)
Definition tsc2ns (fuel : nat) (ns_uninit : Z) (tsc : Z) : M Z :=
  let ns := ns_uninit in
  tsc2ns_loop fuel tsc ;;;
  ret ns.

(** [rdns]. *)
Definition rdns (fuel : nat) (ns_uninit : Z) : M Z :=
  t <- rdtsc ;;
  tsc2ns fuel ns_uninit t.

(** ** [calibrate] *)

Definition clamp_ns_err (ns_err : Z) : Z :=
  let ns_err := if 1000000 <? ns_err then 1000000 else ns_err in
  let ns_err := if ns_err <? -1000000 then -1000000 else ns_err in
  ns_err.

(** [ns_per_tsc_ * (1.0 - (ns_err + ns_err - base_ns_err_) / ((tsc - base_tsc_) * ns_per_tsc_))]. *)
Definition new_ratio (o : TSCNS) (tsc ns_err : Z) : double :=
  fmul (ns_per_tsc_ o)
       (fsub one
             (fdiv (of_int64 (sub64 (add64 ns_err ns_err) (base_ns_err_ o)))
                   (fmul (of_int64 (sub64 tsc (base_tsc_ o))) (ns_per_tsc_ o)))).

Definition calibrate (fuel : nat) (ns_uninit : Z) : M unit :=
  now <- rdtsc ;;
  next <- load next_calibrate_tsc_ ;;
  if now <? next then ret tt
  else
    '(tsc, ns) <- syncTime ;;
    predicted <- tsc2ns fuel ns_uninit tsc ;;
    let ns_err := clamp_ns_err (sub64 predicted ns) in
    o <- load (fun o => o) ;;
    let new_ns_per_tsc_ := new_ratio o tsc ns_err in
    saveParam tsc ns ns_err new_ns_per_tsc_.

(** ** [init] *)

(** [while (rdsysns() < expire_ns) std::this_thread::yield();] *)
Fixpoint wait_until (fuel : nat) (expire_ns : Z) : M unit :=
  match fuel with
  | O => out_of_fuel
  | S fuel' =>
      now <- rdsysns ;;
      if now <? expire_ns then wait_until fuel' expire_ns else ret tt
  end.

Definition init (fuel : nat) (init_calibrate_ns calibrate_interval_ns : Z) : M unit :=
  store F_calibrate_interval_ns (set_calibrate_interval_ns calibrate_interval_ns) ;;;
  '(base_tsc, base_ns) <- syncTime ;;
  let expire_ns := add64 base_ns init_calibrate_ns in
  wait_until fuel expire_ns ;;;
  '(delayed_tsc, delayed_ns) <- syncTime ;;
  let init_ns_per_tsc :=
    fdiv (of_int64 (sub64 delayed_ns base_ns)) (of_int64 (sub64 delayed_tsc base_tsc)) in
  saveParam base_tsc base_ns 0 init_ns_per_tsc.

(** [getTscGhz]. *)
Definition getTscGhz : M double :=
  r <- load ns_per_tsc_ ;;
  ret (fdiv one r).

(** * Vocabulary of the statements *)

(** A snapshot is stable (committed) when its sequence number is an even
    [uint32_t]: no commit is in progress. *)
Definition stable (o : TSCNS) : Prop :=
  0 <= param_seq_ o < 2 ^ 32 /\ Z.even (param_seq_ o) = true.

(** The [i]-th next reading of the counter and of the system clock. *)
Definition tsc_at (c : Clocks) (i : nat) : Z := wrap64 (tsc_src c (i + tsc_pos c)).
Definition sys_at (c : Clocks) (i : nat) : Z := wrap64 (sys_src c (i + sys_pos c)).

(** The environment after [i] counter readings and [j] clock readings. *)
Definition advance (i j : nat) (c : Clocks) : Clocks :=
  mkClocks (tsc_src c) (i + tsc_pos c) (sys_src c) (j + sys_pos c).

(** The counter delta of the adjacent pair [(tick[i-1], tick[i])] that
    [syncTime] would sample in environment [c]. *)
Definition pair_delta (c : Clocks) (i : nat) : Z :=
  sub64 (tsc_at c i) (tsc_at c (i - 1)).

(** What [syncTime] returns in environment [c], as a function of the seven
    readings it takes. *)
Definition sync_of (c : Clocks) : Z * Z :=
  let tsc := [tsc_at c 0; tsc_at c 1; tsc_at c 2; tsc_at c 3] in
  let ns := [0; sys_at c 0; sys_at c 1; sys_at c 2] in
  let best := best_loop 2 2 tsc 1%nat in
  (Z.shiftr (add64 (array_get tsc best) (array_get tsc (best - 1))) 1,
   array_get ns best).

(** [calibrate] takes its slow path when the counter it reads first is not
    below [next_calibrate_tsc_]. *)
Definition slow_path (m : Machine) : Prop :=
  next_calibrate_tsc_ (self m) <= tsc_at (env m) 0.

(** The machine [calibrate] is in once it has read the counter and taken its
    synchronized sample, and that sample. *)
Definition after_sample (m : Machine) : Machine :=
  mkMachine (self m) (advance 5 3 (env m)) (log m).
Definition calibrate_sample (m : Machine) : Z * Z :=
  sync_of (advance 1 0 (env m)).

(** A double that is neither an infinity nor NaN. *)
Definition is_finite (x : double) : bool :=
  match x with
  | S754_zero _ | S754_finite _ _ _ => true
  | S754_infinity _ | S754_nan => false
  end.

(** [0 < x], for a double. *)
Definition is_positive (x : double) : bool :=
  match x with
  | S754_finite false _ _ | S754_infinity false => true
  | _ => false
  end.

(** The corrected ratio in the words of the specification:
    [ns_per_tick * (1 - (2*error - previous_error) / ((tick - base_tick) * ns_per_tick))],
    the integer operands being [int64_t] values and the rest doubles. *)
Definition spec_new_ns_per_tick
    (ns_per_tick : double) (error previous_error tick base_tick : Z) : double :=
  fmul ns_per_tick
       (fsub one
             (fdiv (of_int64 (wrap64 (2 * error - previous_error)))
                   (fmul (of_int64 (wrap64 (tick - base_tick))) ns_per_tick))).

(** The object a commit leaves behind. *)
Definition committed (o : TSCNS) (base_tsc sys_ns base_ns_err : Z) (r : double) : TSCNS :=
  mkTSCNS (u32 (param_seq_ o + 2)) r base_tsc (add64 sys_ns base_ns_err)
          (calibrate_interval_ns_ o) base_ns_err
          (add64 base_tsc
                 (to_int64 (fdiv (of_int64 (sub64 (calibrate_interval_ns_ o) 1000)) r))).

(** The events of one commit, for a sequence number [s] and the head [pre] of
    unguarded stores. *)
Definition commit_events (pre : list event) (s : Z) : list event :=
  pre ++
  [EvSeq s (u32 (s + 1));
   EvStore F_base_tsc (u32 (s + 1));
   EvStore F_base_ns (u32 (s + 1));
   EvStore F_ns_per_tsc (u32 (s + 1));
   EvSeq (u32 (s + 1)) (u32 (s + 2))].

(** ** Concrete machines used to exercise the statements *)

(** A committed snapshot of a 1 GHz counter: one nanosecond per tick, based
    at tick 0 and nanosecond 0, recalibration due at tick 2000. *)
Definition snapshot_1ghz : TSCNS := mkTSCNS 0 one 0 0 3000000000 0 2000.

(** Counter readings 3000, 3010, 3020, ... *)
Definition ticking : nat -> Z := fun n => 3000 + 10 * Z.of_nat n.

(** A wall clock that agrees with the snapshot up to a few hundred
    nanoseconds, and one that has jumped 10 ms ahead of it. *)
Definition clocks_near : Clocks := mkClocks ticking 0 (fun n => 2900 + 7 * Z.of_nat n) 0.
Definition clocks_jumped : Clocks :=
  mkClocks ticking 0 (fun n => 10000000 + 7 * Z.of_nat n) 0.

Definition machine_near : Machine := mkMachine snapshot_1ghz clocks_near [].
Definition machine_jumped : Machine := mkMachine snapshot_1ghz clocks_jumped [].

(** An uncalibrated object, and a machine whose wall clock advances 7 ns per
    reading from 5000 ns while the counter advances 10 ticks per reading. *)
Definition fresh_object : TSCNS := mkTSCNS 0 (S754_zero false) 0 0 0 0 0.
Definition clocks_boot : Clocks :=
  mkClocks (fun n => 1000 + 10 * Z.of_nat n) 0 (fun n => 5000 + 7 * Z.of_nat n) 0.
Definition machine_boot : Machine := mkMachine fresh_object clocks_boot [].

(** An object whose sequence number is the largest even [uint32_t]. *)
Definition snapshot_last_seq : TSCNS := mkTSCNS (2 ^ 32 - 2) one 0 0 3000000000 0 2000.
Definition machine_last_seq : Machine := mkMachine snapshot_last_seq clocks_near [].

(** Every plain store of the log executes while the sequence number is odd. *)
Definition all_stores_guarded (l : list event) : Prop :=
  forall f s, In (EvStore f s) l -> Z.odd s = true.

(** The data members [tsc2ns] reads. *)
Definition read_by_tsc2ns (f : field) : bool :=
  match f with
  | F_base_tsc | F_base_ns | F_ns_per_tsc => true
  | _ => false
  end.

(** The pair [syncTime] returns is the tightest among the pairs [i = 2..N]
    only. *)
Definition selects_among_later_pairs (m : Machine) : Prop :=
  exists best : nat,
    (2 <= best <= 3)%nat /\
    (forall i, (2 <= i <= 3)%nat -> pair_delta (env m) best <= pair_delta (env m) i) /\
    exists m',
      syncTime m =
      Some ((Z.shiftr (add64 (tsc_at (env m) best) (tsc_at (env m) (best - 1))) 1,
             sys_at (env m) (best - 1)), m').

(** Counter readings 100, 101, 110, 120: the first pair is the tightest. *)
Definition clocks_tight_first : Clocks :=
  mkClocks (fun n => nth n [100; 101; 110; 120] 0) 0 (fun n => 5000 + 7 * Z.of_nat n) 0.
Definition machine_tight_first : Machine := mkMachine fresh_object clocks_tight_first [].

(** Counter readings from [2^62] on, 10 ticks apart. *)
Definition clocks_high_counter : Clocks :=
  mkClocks (fun n => 2 ^ 62 + 10 * Z.of_nat n) 0 (fun n => 5000 + 7 * Z.of_nat n) 0.
Definition machine_high_counter : Machine := mkMachine fresh_object clocks_high_counter [].

(** The events of a commit started at sequence number [s]: the stores to the
    data members [tsc2ns] reads sit between the two stores to [param_seq_],
    the first of which makes it odd and the second even; what precedes the
    first are stores to other data members, executed while it still is [s]. *)
Definition guarded_commit (s : Z) (evs : list event) : Prop :=
  exists pre : list event,
    evs = pre ++ [EvSeq s (u32 (s + 1));
                  EvStore F_base_tsc (u32 (s + 1));
                  EvStore F_base_ns (u32 (s + 1));
                  EvStore F_ns_per_tsc (u32 (s + 1));
                  EvSeq (u32 (s + 1)) (u32 (s + 2))] /\
    Z.odd (u32 (s + 1)) = true /\
    Z.even (u32 (s + 2)) = true /\
    Forall (fun e => exists f, e = EvStore f s /\ read_by_tsc2ns f = false) pre.

(** How a commit changes the sequence number of [o] into that of [o']. *)
Definition seq_advanced (o o' : TSCNS) : Prop :=
  param_seq_ o' = (param_seq_ o + 2) mod 2 ^ 32 /\
  Z.even (param_seq_ o') = Z.even (param_seq_ o) /\
  (param_seq_ o < 2 ^ 32 - 2 -> param_seq_ o' = param_seq_ o + 2) /\
  (2 ^ 32 - 2 <= param_seq_ o -> param_seq_ o' = param_seq_ o + 2 - 2 ^ 32).



(** ** Rounding, as arithmetic on integers

    A non-negative dyadic number is a pair [(m, e)] standing for [m * 2^e]. *)

(** [m / 2^k] rounded to the nearest integer, ties to even. *)
Definition rne (m k : Z) : Z :=
  if k <=? 0 then m
  else
    let q := m / 2 ^ k in
    let r := m mod 2 ^ k in
    let h := 2 ^ (k - 1) in
    if r <? h then q
    else if h <? r then q + 1
    else if Z.even q then q else q + 1.

(** The exponent of the binary64 format for a number of magnitude [x]. *)
Definition fexp64 (x : Z) : Z := fexp prec emax x.

(** [m * 2^e] rounded to the binary64 grid of its magnitude. *)
Definition rnd (m e : Z) : Z * Z :=
  let E := fexp64 (Zdigits2 m + e) in
  if e <? E then (rne m (E - e), E) else (m, e).

(** [m1 * 2^e1 <= m2 * 2^e2], stated on integers. *)
Definition dle (m1 e1 m2 e2 : Z) : Prop :=
  m1 * 2 ^ (e1 - Z.min e1 e2) <= m2 * 2 ^ (e2 - Z.min e1 e2).

(** The magnitude of a double as a dyadic number; [0] when it is not finite. *)
Definition fmant (x : double) : Z :=
  match x with S754_finite _ m _ => Zpos m | _ => 0 end.
Definition fexpo (x : double) : Z :=
  match x with S754_finite _ _ e => e | _ => 0 end.

(** What [k >= 1] right shifts leave of the mantissa [m]: the quotient, the
    round bit and the sticky bit. *)
Definition shifted (m k : Z) : shr_record :=
  Build_shr_record (m / 2 ^ k)
                   (2 ^ (k - 1) <=? m mod 2 ^ k)
                   (negb ((m mod 2 ^ k) mod 2 ^ (k - 1) =? 0)).

(** [m * 2^e] rounded to a multiple of [2^E], as a multiple of [2^E]. *)
Definition to_grid (m e E : Z) : Z :=
  if e <? E then rne m (E - e) else m * 2 ^ (e - E).

(** [m1 * 2^e1 = m2 * 2^e2]. *)
Definition deq (m1 e1 m2 e2 : Z) : Prop := dle m1 e1 m2 e2 /\ dle m2 e2 m1 e1.

(** The order of the magnitudes of two doubles. *)
Definition mag_le (x y : double) : Prop := dle (fmant x) (fexpo x) (fmant y) (fexpo y).

(** A double that is not NaN and carries the sign [s]. *)
Definition has_sign (s : bool) (x : double) : Prop :=
  match x with
  | S754_zero s' | S754_infinity s' | S754_finite s' _ _ => s' = s
  | S754_nan => False
  end.

(** Evaluating the formula of snapshot [o] at [tick] overflows nowhere: not in
    [tick - base_tsc_], not in the conversion of the product to [int64_t], not
    in the addition of [base_ns_]. *)
Definition no_overflow (o : TSCNS) (tick : Z) : Prop :=
  in_int64 (tick - base_tsc_ o) /\
  exists z : Z,
    trunc_double (fmul (of_int64 (tick - base_tsc_ o)) (ns_per_tsc_ o)) = Some z /\
    in_int64 z /\ in_int64 (base_ns_ o + z).

(** A committed 1 GHz snapshot whose [base_ns_] is the largest [int64_t]. *)
Definition snapshot_late : TSCNS := mkTSCNS 0 one 0 INT64_MAX 3000000000 0 2000.
Definition machine_late : Machine := mkMachine snapshot_late clocks_near [].

(** A wall clock that is stepped back during [init]: it reads 9999 ns once,
    between 5021 ns and 5030 ns. *)
Definition clocks_stepping : Clocks :=
  mkClocks (fun n => 1000 + 10 * Z.of_nat n) 0
           (fun n => nth n [5000; 5007; 5014; 5021; 9999; 5030; 5037; 5044] 6000) 0.
Definition machine_stepping : Machine := mkMachine fresh_object clocks_stepping [].

(** ** Vocabulary of the further properties *)

(** The calls a user makes on a clock through its member functions (direct
    writes to the public data members and direct calls of [saveParam] are not
    among them). *)
Inductive call : Type :=
  | Call_init (fuel : nat) (init_calibrate_ns calibrate_interval_ns : Z)
  | Call_calibrate (fuel : nat) (ns_uninit : Z)
  | Call_tsc2ns (fuel : nat) (ns_uninit tsc : Z)
  | Call_rdns (fuel : nat) (ns_uninit : Z)
  | Call_rdtsc
  | Call_rdsysns
  | Call_getTscGhz
  | Call_syncTime.

(** A call, its result dropped. *)
Definition perform (c : call) : M unit :=
  match c with
  | Call_init fuel a b => init fuel a b
  | Call_calibrate fuel u => calibrate fuel u
  | Call_tsc2ns fuel u tsc => tsc2ns fuel u tsc ;;; ret tt
  | Call_rdns fuel u => rdns fuel u ;;; ret tt
  | Call_rdtsc => rdtsc ;;; ret tt
  | Call_rdsysns => rdsysns ;;; ret tt
  | Call_getTscGhz => getTscGhz ;;; ret tt
  | Call_syncTime => syncTime ;;; ret tt
  end.

Fixpoint perform_all (cs : list call) : M unit :=
  match cs with
  | [] => ret tt
  | c :: cs' => perform c ;;; perform_all cs'
  end.

(** The loops of the call have fuel for at least one pass. *)
Definition fuelled (c : call) : Prop :=
  match c with
  | Call_init fuel _ _ | Call_calibrate fuel _ | Call_tsc2ns fuel _ _
  | Call_rdns fuel _ => (0 < fuel)%nat
  | _ => True
  end.

Definition is_init (c : call) : bool :=
  match c with Call_init _ _ _ => true | _ => false end.

(** The state the member functions keep the object in: a stable sequence
    number, a stored error within the clamp, and [int64_t] contents. *)
Definition well_kept (o : TSCNS) : Prop :=
  stable o /\
  -1000000 <= base_ns_err_ o <= 1000000 /\
  in_int64 (base_tsc_ o) /\ in_int64 (base_ns_ o) /\ in_int64 (next_calibrate_tsc_ o).

(** ** One commit seen by a concurrent reader

    [saveParam] as the list of its stores, each with the loads that precede
    it, so that the states between two stores can be named.  The last step
    loads back the sequence number the writer itself stored, where the source
    increments its local copy a second time. *)
Definition saveParam_steps (base_tsc sys_ns base_ns_err : Z) (new_ns_per_tsc : double)
  : list (M unit) :=
  [ store F_base_ns_err (set_base_ns_err base_ns_err);
    (interval <- load calibrate_interval_ns_ ;;
     store F_next_calibrate_tsc
           (set_next_calibrate_tsc
              (add64 base_tsc
                     (to_int64 (fdiv (of_int64 (sub64 interval 1000)) new_ns_per_tsc)))));
    (seq <- load param_seq_ ;; store_param_seq (u32 (seq + 1)));
    store F_base_tsc (set_base_tsc base_tsc);
    store F_base_ns (set_base_ns (add64 sys_ns base_ns_err));
    store F_ns_per_tsc (set_ns_per_tsc new_ns_per_tsc);
    (seq <- load param_seq_ ;; store_param_seq (u32 (seq + 1))) ].

Fixpoint run_steps (steps : list (M unit)) : M unit :=
  match steps with
  | [] => ret tt
  | s :: rest => s ;;; run_steps rest
  end.

(** The object before the first step and after each step. *)
Fixpoint timeline (steps : list (M unit)) (m : Machine) : list TSCNS :=
  self m ::
  match steps with
  | [] => []
  | s :: rest =>
      match s m with
      | Some (_, m') => timeline rest m'
      | None => []
      end
  end.

(** The object a reader finds at time [i] of a timeline; after its end, the
    last one. *)
Definition at_time (tl : list TSCNS) (i : nat) : TSCNS :=
  nth i tl (last tl fresh_object).

(** One pass through the body of the loop of [tsc2ns] whose five loads happen
    at the times [t_before <= t_ns, t_tsc, t_ratio <= t_after] of a timeline
    (sequentially consistent interleaving with the writer). *)
Definition reader_pass (tl : list TSCNS) (t_before t_ns t_tsc t_ratio t_after : nat)
    (tsc : Z) : Z * Z * Z :=
  let before_seq := Z.land (param_seq_ (at_time tl t_before)) (2 ^ 32 - 2) in
  let ns :=
    add64 (base_ns_ (at_time tl t_ns))
          (to_int64 (fmul (of_int64 (sub64 tsc (base_tsc_ (at_time tl t_tsc))))
                          (ns_per_tsc_ (at_time tl t_ratio)))) in
  let after_seq := param_seq_ (at_time tl t_after) in
  (before_seq, ns, after_seq).

(** A snapshot with a due recalibration, based at the tick the next
    synchronized sample of [clocks_near] yields. *)
Definition snapshot_same_tick : TSCNS := mkTSCNS 0 one 3015 3000 1000 0 2000.
Definition machine_same_tick : Machine := mkMachine snapshot_same_tick clocks_near [].

(** A machine whose counter does not advance. *)
Definition clocks_frozen_counter : Clocks :=
  mkClocks (fun _ => 777) 0 (fun n => 5000 + 7 * Z.of_nat n) 0.
Definition machine_frozen_counter : Machine :=
  mkMachine fresh_object clocks_frozen_counter [].


(** A snapshot whose recalibration is not due at the readings of [ticking]. *)
Definition snapshot_not_due : TSCNS := mkTSCNS 2 one 0 0 3000000000 0 3000000000.
Definition machine_not_due : Machine := mkMachine snapshot_not_due clocks_near [].

(** The number of stores to [param_seq_] in a log. *)
Fixpoint seq_stores (l : list event) : nat :=
  match l with
  | [] => 0
  | EvSeq _ _ :: l' => S (seq_stores l')
  | EvStore _ _ :: l' => seq_stores l'
  end.

(** * Properties *)

(** ** Machine integers *)

Lemma wrap64_range (z : Z) : in_int64 (wrap64 z).
Proof.
  unfold in_int64, wrap64, INT64_MIN, INT64_MAX.
  pose proof (Z.mod_pos_bound (z + 2 ^ 63) (2 ^ 64) ltac:(lia)). lia.
Qed.

Lemma wrap64_id (z : Z) : in_int64 z -> wrap64 z = z.
Proof.
  unfold in_int64, wrap64, INT64_MIN, INT64_MAX. intros H.
  rewrite Z.mod_small; lia.
Qed.


Lemma wrap64_congr (a b : Z) :
  (a - b) mod 2 ^ 64 = 0 -> wrap64 a = wrap64 b.
Proof.
  intros H. unfold wrap64. f_equal.
  apply Z.mod_divide in H; [|lia]. destruct H as [q Hq].
  replace (a + 2 ^ 63) with (b + 2 ^ 63 + q * 2 ^ 64) by lia.
  apply Z.mod_add. lia.
Qed.

Lemma wrap64_diff (z : Z) : (wrap64 z - z) mod 2 ^ 64 = 0.
Proof.
  unfold wrap64.
  rewrite (Z.mod_eq (z + 2 ^ 63) (2 ^ 64)) by lia.
  replace (z + 2 ^ 63 - 2 ^ 64 * ((z + 2 ^ 63) / 2 ^ 64) - 2 ^ 63 - z)
    with ((- ((z + 2 ^ 63) / 2 ^ 64)) * 2 ^ 64) by lia.
  apply Z.mod_mul. lia.
Qed.

Lemma add64_0_r (z : Z) : in_int64 z -> add64 z 0 = z.
Proof. intros H. unfold add64. rewrite Z.add_0_r. now apply wrap64_id. Qed.

Lemma u32_range (z : Z) : 0 <= u32 z < 2 ^ 32.
Proof. unfold u32. apply Z.mod_pos_bound. lia. Qed.

(** Two increments of a [uint32_t] add two, modulo [2^32]. *)
Lemma u32_succ_succ (s : Z) : u32 (u32 (s + 1) + 1) = u32 (s + 2).
Proof.
  unfold u32. rewrite Z.add_mod_idemp_l by lia. f_equal. lia.
Qed.

Lemma u32_even_succ (s : Z) : Z.even s = true -> Z.odd (u32 (s + 1)) = true.
Proof.
  intros H. unfold u32.
  rewrite <- Z.bit0_odd, Z.mod_pow2_bits_low by lia.
  rewrite Z.bit0_odd, Z.odd_add, <- Z.negb_even, H. reflexivity.
Qed.

Lemma u32_even_plus2 (s : Z) : Z.even s = true -> Z.even (u32 (s + 2)) = true.
Proof.
  intros H. unfold u32.
  rewrite <- Z.negb_odd, <- Z.bit0_odd, Z.mod_pow2_bits_low by lia.
  rewrite Z.bit0_odd, Z.odd_add, <- Z.negb_even, H. reflexivity.
Qed.

(** [seq & ~1] leaves an even [uint32_t] unchanged and clears the low bit of an
    odd one. *)
Lemma land_mask_even (s : Z) :
  0 <= s < 2 ^ 32 -> Z.even s = true -> Z.land s (2 ^ 32 - 2) = s.
Proof.
  intros R E. apply Z.bits_inj'. intros n Hn.
  rewrite Z.land_spec.
  destruct (Z.eq_dec n 0) as [->|N0].
  - rewrite Z.bit0_odd, <- Z.negb_even, E. reflexivity.
  - destruct (Z_lt_le_dec n 32) as [L|G].
    + replace (Z.testbit (2 ^ 32 - 2) n) with true; [apply andb_true_r|].
      symmetry.
      assert (n = 1 \/ n = 2 \/ n = 3 \/ n = 4 \/ n = 5 \/ n = 6 \/ n = 7 \/ n = 8 \/
              n = 9 \/ n = 10 \/ n = 11 \/ n = 12 \/ n = 13 \/ n = 14 \/ n = 15 \/
              n = 16 \/ n = 17 \/ n = 18 \/ n = 19 \/ n = 20 \/ n = 21 \/ n = 22 \/
              n = 23 \/ n = 24 \/ n = 25 \/ n = 26 \/ n = 27 \/ n = 28 \/ n = 29 \/
              n = 30 \/ n = 31) as C by lia.
      repeat (destruct C as [->|C]; [reflexivity|]). subst n. reflexivity.
    + replace (Z.testbit s n) with false; [reflexivity|].
      symmetry. apply Z.bits_above_log2; [lia|].
      destruct (Z.eq_dec s 0) as [->|S0]; [simpl; lia|].
      assert (Z.log2 s < 32); [|lia].
      apply Z.log2_lt_pow2; lia.
Qed.

Lemma land_mask_odd (s : Z) : Z.odd s = true -> Z.land s (2 ^ 32 - 2) <> s.
Proof.
  intros O E.
  assert (Z.testbit (Z.land s (2 ^ 32 - 2)) 0 = Z.testbit s 0) as B by now rewrite E.
  rewrite Z.land_spec, (Z.bit0_odd s), O in B. discriminate B.
Qed.

(** ** Running the operations *)

Lemma syncTime_run (m : Machine) :
  syncTime m = Some (sync_of (env m),
                     mkMachine (self m) (advance 4 3 (env m)) (log m)).
Proof. destruct m as [o [ts tp ss sp] l]. reflexivity. Qed.

Lemma tsc2ns_body_run (tsc : Z) (m : Machine) :
  tsc2ns_body tsc m =
  Some ((Z.land (param_seq_ (self m)) (2 ^ 32 - 2), linear_ns (self m) tsc,
         param_seq_ (self m)), m).
Proof. reflexivity. Qed.

(** On a stable snapshot the loop of [tsc2ns] exits after its first pass. *)
Lemma tsc2ns_loop_stable (fuel : nat) (tsc : Z) (m : Machine) :
  stable (self m) -> tsc2ns_loop (S fuel) tsc m = Some (tt, m).
Proof.
  intros [R E]. cbn [tsc2ns_loop]. unfold bind at 1.
  rewrite tsc2ns_body_run. cbn beta iota.
  rewrite (land_mask_even _ R E), Z.eqb_refl. reflexivity.
Qed.

(** What [tsc2ns] returns on a stable snapshot: the content of its
    uninitialised local. *)
Lemma tsc2ns_stable (fuel : nat) (ns_uninit tsc : Z) (m : Machine) :
  stable (self m) -> tsc2ns (S fuel) ns_uninit tsc m = Some (ns_uninit, m).
Proof.
  intros S. unfold tsc2ns, bind. rewrite (tsc2ns_loop_stable fuel tsc m S).
  reflexivity.
Qed.

(** With an odd sequence number and no writer to finish the commit, the loop
    never exits. *)
Lemma tsc2ns_loop_odd (fuel : nat) (tsc : Z) (m : Machine) :
  Z.odd (param_seq_ (self m)) = true -> tsc2ns_loop fuel tsc m = None.
Proof.
  intros O. induction fuel as [|fuel IH]; [reflexivity|].
  cbn [tsc2ns_loop]. unfold bind at 1. rewrite tsc2ns_body_run. cbn beta iota.
  destruct (Z.eqb_spec (Z.land (param_seq_ (self m)) (2 ^ 32 - 2)) (param_seq_ (self m)))
    as [E|_]; [|exact IH].
  now apply land_mask_odd in E.
Qed.

Lemma saveParam_run (base_tsc sys_ns base_ns_err : Z) (r : double) (m : Machine) :
  saveParam base_tsc sys_ns base_ns_err r m =
  Some (tt, mkMachine (committed (self m) base_tsc sys_ns base_ns_err r) (env m)
                      (log m ++ commit_events
                         [EvStore F_base_ns_err (param_seq_ (self m));
                          EvStore F_next_calibrate_tsc (param_seq_ (self m))]
                         (param_seq_ (self m)))).
Proof.
  destruct m as [o c l]. unfold saveParam, bind, store, store_param_seq, load.
  cbn. unfold committed, commit_events. cbn.
  rewrite u32_succ_succ. repeat rewrite <- app_assoc. reflexivity.
Qed.

Lemma rdtsc_run (m : Machine) :
  rdtsc m = Some (tsc_at (env m) 0,
                  mkMachine (self m) (advance 1 0 (env m)) (log m)).
Proof. destruct m as [o [ts tp ss sp] l]. reflexivity. Qed.

Lemma rdsysns_run (m : Machine) :
  rdsysns m = Some (sys_at (env m) 0,
                    mkMachine (self m) (advance 0 1 (env m)) (log m)).
Proof. destruct m as [o [ts tp ss sp] l]. reflexivity. Qed.

(** The fast path: nothing changes but the counter reading consumed. *)
Lemma calibrate_fast_run (fuel : nat) (ns_uninit : Z) (m : Machine) :
  ~ slow_path m ->
  calibrate fuel ns_uninit m =
  Some (tt, mkMachine (self m) (advance 1 0 (env m)) (log m)).
Proof.
  unfold slow_path. intros F. unfold calibrate, bind at 1. rewrite rdtsc_run.
  unfold bind at 1, load. cbn [self].
  destruct (Z.ltb_spec (tsc_at (env m) 0) (next_calibrate_tsc_ (self m))); [reflexivity|lia].
Qed.

(** The slow path, on a stable snapshot. *)
Lemma calibrate_slow_run (fuel : nat) (ns_uninit : Z) (m : Machine) :
  stable (self m) -> slow_path m ->
  calibrate (S fuel) ns_uninit m =
  let '(tsc, ns) := calibrate_sample m in
  let ns_err := clamp_ns_err (sub64 ns_uninit ns) in
  Some (tt, mkMachine (committed (self m) tsc ns ns_err (new_ratio (self m) tsc ns_err))
                      (advance 5 3 (env m))
                      (log m ++ commit_events
                         [EvStore F_base_ns_err (param_seq_ (self m));
                          EvStore F_next_calibrate_tsc (param_seq_ (self m))]
                         (param_seq_ (self m)))).
Proof.
  unfold slow_path. intros St Sl. unfold calibrate, bind at 1. rewrite rdtsc_run.
  unfold bind at 1, load. cbn [self].
  destruct (Z.ltb_spec (tsc_at (env m) 0) (next_calibrate_tsc_ (self m))); [lia|].
  unfold bind at 1. rewrite syncTime_run. cbn [self env log].
  unfold calibrate_sample.
  destruct (sync_of (advance 1 0 (env m))) as [tsc ns].
  unfold bind at 1. rewrite tsc2ns_stable by exact St.
  unfold bind at 1. cbn [self].
  rewrite saveParam_run. cbn [self env log].
  destruct m as [o [ts tp ss sp] l]. reflexivity.
Qed.

Lemma sys_at_advance (i j k : nat) (c : Clocks) :
  sys_at (advance i j c) k = sys_at c (k + j).
Proof. unfold sys_at, advance. cbn. now rewrite Nat.add_assoc. Qed.

Lemma tsc_at_advance (i j k : nat) (c : Clocks) :
  tsc_at (advance i j c) k = tsc_at c (k + i).
Proof. unfold tsc_at, advance. cbn. now rewrite Nat.add_assoc. Qed.

Lemma advance_advance (i j i' j' : nat) (c : Clocks) :
  advance i j (advance i' j' c) = advance (i + i') (j + j') c.
Proof. unfold advance. cbn. now rewrite !Nat.add_assoc. Qed.

(** The wait of [init] ends at the first clock reading that is not before the
    expiry, provided the fuel reaches it. *)
Lemma wait_until_run (k : nat) :
  forall (fuel : nat) (expire_ns : Z) (m : Machine),
    (k < fuel)%nat ->
    (forall j, (j < k)%nat -> sys_at (env m) j < expire_ns) ->
    expire_ns <= sys_at (env m) k ->
    wait_until fuel expire_ns m =
    Some (tt, mkMachine (self m) (advance 0 (S k) (env m)) (log m)).
Proof.
  induction k as [|k IH]; intros fuel expire_ns m Hf Hb He;
    (destruct fuel as [|fuel]; [lia|]); cbn [wait_until];
    unfold bind at 1; rewrite rdsysns_run.
  - destruct (Z.ltb_spec (sys_at (env m) 0) expire_ns); [lia|reflexivity].
  - destruct (Z.ltb_spec (sys_at (env m) 0) expire_ns) as [_|G].
    + rewrite IH; cbn [self env log].
      * rewrite advance_advance. do 3 f_equal. f_equal. lia.
      * lia.
      * intros j Hj. rewrite sys_at_advance.
        replace (j + 1)%nat with (S j) by lia. apply Hb. lia.
      * rewrite sys_at_advance. now replace (k + 1)%nat with (S k) by lia.
    + specialize (Hb 0%nat ltac:(lia)). lia.
Qed.


Lemma init_run (k fuel : nat) (init_calibrate_ns calibrate_interval_ns : Z) (m : Machine) :
  let '(base_tsc, base_ns) := sync_of (env m) in
  let waiting := advance 4 3 (env m) in
  let expire_ns := add64 base_ns init_calibrate_ns in
  (k < fuel)%nat ->
  (forall j, (j < k)%nat -> sys_at waiting j < expire_ns) ->
  expire_ns <= sys_at waiting k ->
  init fuel init_calibrate_ns calibrate_interval_ns m =
  let '(delayed_tsc, delayed_ns) := sync_of (advance 0 (S k) waiting) in
  let r := fdiv (of_int64 (sub64 delayed_ns base_ns))
                (of_int64 (sub64 delayed_tsc base_tsc)) in
  Some (tt, mkMachine
              (committed (set_calibrate_interval_ns calibrate_interval_ns (self m))
                         base_tsc base_ns 0 r)
              (advance 4 3 (advance 0 (S k) waiting))
              (log m ++ commit_events
                 [EvStore F_calibrate_interval_ns (param_seq_ (self m));
                  EvStore F_base_ns_err (param_seq_ (self m));
                  EvStore F_next_calibrate_tsc (param_seq_ (self m))]
                 (param_seq_ (self m)))).
Proof.
  destruct (sync_of (env m)) as [base_tsc base_ns] eqn:E1.
  intros waiting expire_ns Hf Hb He.
  unfold init, bind at 1, store. unfold bind at 1. rewrite syncTime_run.
  cbn [self env log]. rewrite E1. unfold bind at 1.
  rewrite (wait_until_run k) by assumption.
  unfold bind at 1. rewrite syncTime_run. cbn [self env log].
  fold waiting.
  destruct (sync_of (advance 0 (S k) waiting)) as [delayed_tsc delayed_ns].
  rewrite saveParam_run. cbn [self env log].
  unfold commit_events. cbn. rewrite <- !app_assoc. reflexivity.
Qed.

(** ** [tsc2ns] *)

(** C1.  The claim is that [tsc2ns(tick)] returns
    [base_ns_ + (int64)((tick - base_tsc_) * ns_per_tsc_)] on every stable
    snapshot.  The code computes that value into the [ns] declared inside the
    loop body and returns the function-scope [ns], which is never assigned:
    on the 1 GHz snapshot based at 0, whatever the uninitialised local holds
    comes back for tick 1000, while the formula gives 1000. *)
Theorem tsc2ns_returns_uninitialised_local :
  forall ns_uninit : Z,
    tsc2ns 1 ns_uninit 1000 machine_near = Some (ns_uninit, machine_near) /\
    linear_ns (self machine_near) 1000 = 1000.
Proof.
  intros ns_uninit. split.
  - apply tsc2ns_stable. split; [cbn; lia|reflexivity].
  - vm_compute. reflexivity.
Qed.

(** ** [calibrate]: the clamped error *)

Lemma clamp_ns_err_spec (raw : Z) :
  clamp_ns_err raw = Z.max (-1000000) (Z.min 1000000 raw).
Proof.
  unfold clamp_ns_err.
  destruct (Z.ltb_spec 1000000 raw);
    [destruct (Z.ltb_spec 1000000 (-1000000))|destruct (Z.ltb_spec raw (-1000000))]; lia.
Qed.

(** C4.  On the slow path of [calibrate], the error that enters the ratio
    correction and the committed [base_ns_] and [base_ns_err_] is the raw error
    [tsc2ns(tsc) - ns] clamped to [-1,000,000, +1,000,000]: it is exactly
    +1,000,000 (resp. -1,000,000) when the raw error is above (resp. below)
    the bound, and the raw error otherwise. *)
Theorem calibrate_clamps_error (fuel : nat) (ns_uninit : Z) (m : Machine) :
  stable (self m) -> slow_path m ->
  exists (predicted : Z) (m' : Machine),
    let '(tsc, ns) := calibrate_sample m in
    let raw := sub64 predicted ns in
    let err := Z.max (-1000000) (Z.min 1000000 raw) in
    tsc2ns (S fuel) ns_uninit tsc (after_sample m) = Some (predicted, after_sample m) /\
    calibrate (S fuel) ns_uninit m = Some (tt, m') /\
    (1000000 < raw -> err = 1000000) /\
    (raw < -1000000 -> err = -1000000) /\
    (-1000000 <= raw <= 1000000 -> err = raw) /\
    -1000000 <= err <= 1000000 /\
    ns_per_tsc_ (self m') = new_ratio (self m) tsc err /\
    base_ns_ (self m') = add64 ns err /\
    base_ns_err_ (self m') = err.
Proof.
  intros St Sl.
  pose proof (calibrate_slow_run fuel ns_uninit m St Sl) as R.
  destruct (calibrate_sample m) as [tsc ns] eqn:Es.
  exists ns_uninit. eexists. cbn zeta.
  split; [apply tsc2ns_stable; exact St|].
  split; [exact R|].
  rewrite <- clamp_ns_err_spec. cbn [self ns_per_tsc_ base_ns_ base_ns_err_ committed].
  rewrite clamp_ns_err_spec. repeat split; lia.
Qed.

(** A wall clock that jumped 10 ms ahead: the raw error is about -10 ms, and
    what is committed is -1 ms. *)
Lemma calibrate_clamps_error_witness :
  stable (self machine_jumped) /\ slow_path machine_jumped /\
  exists m', calibrate 1 3015 machine_jumped = Some (tt, m') /\
             base_ns_err_ (self m') = -1000000 /\
             base_ns_ (self m') = 10000000 - 1000000.
Proof.
  assert (St : stable (self machine_jumped)) by (split; [cbn; lia|reflexivity]).
  assert (Sl : slow_path machine_jumped) by (vm_compute; discriminate).
  split; [exact St|]. split; [exact Sl|].
  destruct (calibrate_clamps_error 0 3015 machine_jumped St Sl)
    as (predicted & m' & W).
  exists m'.
  assert (Es : calibrate_sample machine_jumped = (3015, 10000000)) by (vm_compute; reflexivity).
  rewrite Es in W. cbn zeta in W.
  destruct W as (T & C & _ & _ & _ & _ & _ & Bn & Be).
  rewrite tsc2ns_stable in T by exact St.
  assert (predicted = 3015) by congruence. subst predicted.
  split; [exact C|]. split; [rewrite Be|rewrite Bn]; vm_compute; reflexivity.
Defined.

(** ** [calibrate]: the corrected ratio *)

Lemma new_ratio_spec (o : TSCNS) (tsc ns_err : Z) :
  new_ratio o tsc ns_err =
  spec_new_ns_per_tick (ns_per_tsc_ o) ns_err (base_ns_err_ o) tsc (base_tsc_ o).
Proof.
  unfold new_ratio, spec_new_ns_per_tick, sub64, add64.
  do 4 f_equal. apply wrap64_congr.
  pose proof (wrap64_diff (ns_err + ns_err)) as D.
  replace (wrap64 (ns_err + ns_err) - base_ns_err_ o - (2 * ns_err - base_ns_err_ o))
    with (wrap64 (ns_err + ns_err) - (ns_err + ns_err)) by lia.
  exact D.
Qed.

(** C6.  On the slow path of [calibrate], with [error] the clamped error,
    [previous_error] the stored [base_ns_err_], [tick] the newly sampled
    counter value and [(base_tick, ns_per_tick)] from the current snapshot,
    the committed ratio is
    [ns_per_tick * (1 - (2*error - previous_error) / ((tick - base_tick) * ns_per_tick))]. *)
Theorem calibrate_commits_corrected_ratio (fuel : nat) (ns_uninit : Z) (m : Machine) :
  stable (self m) -> slow_path m ->
  exists (predicted : Z) (m' : Machine),
    let '(tick, ns) := calibrate_sample m in
    let error := clamp_ns_err (sub64 predicted ns) in
    tsc2ns (S fuel) ns_uninit tick (after_sample m) = Some (predicted, after_sample m) /\
    calibrate (S fuel) ns_uninit m = Some (tt, m') /\
    ns_per_tsc_ (self m') =
    spec_new_ns_per_tick (ns_per_tsc_ (self m)) error (base_ns_err_ (self m))
                         tick (base_tsc_ (self m)).
Proof.
  intros St Sl.
  pose proof (calibrate_slow_run fuel ns_uninit m St Sl) as R.
  destruct (calibrate_sample m) as [tick ns] eqn:Es.
  exists ns_uninit. eexists. cbn zeta.
  split; [apply tsc2ns_stable; exact St|].
  split; [exact R|].
  cbn [self ns_per_tsc_ committed]. apply new_ratio_spec.
Qed.

(** The snapshot predicts 3015 ns at tick 3015 and the wall clock reads
    2900 ns: the error is 115 ns, the previous error 0, and the ratio goes
    from 1 to [1 - 230/3015]. *)
Lemma calibrate_commits_corrected_ratio_witness :
  stable (self machine_near) /\ slow_path machine_near /\
  exists m', calibrate 1 3015 machine_near = Some (tt, m') /\
             ns_per_tsc_ (self m') = spec_new_ns_per_tick one 115 0 3015 0.
Proof.
  assert (St : stable (self machine_near)) by (split; [cbn; lia|reflexivity]).
  assert (Sl : slow_path machine_near) by (vm_compute; discriminate).
  split; [exact St|]. split; [exact Sl|].
  destruct (calibrate_commits_corrected_ratio 0 3015 machine_near St Sl)
    as (predicted & m' & W).
  exists m'.
  assert (Es : calibrate_sample machine_near = (3015, 2900)) by (vm_compute; reflexivity).
  rewrite Es in W. cbn zeta in W.
  destruct W as (T & C & Rt).
  rewrite tsc2ns_stable in T by exact St.
  assert (predicted = 3015) by congruence. subst predicted.
  split; [exact C|]. rewrite Rt. reflexivity.
Defined.

(** ** [calibrate]: the committed snapshot *)

(** C7.  A slow-path [calibrate] commits a snapshot whose [base_tsc_] is the
    newly sampled counter value, whose [base_ns_] is the newly sampled
    wall-clock value plus the clamped error, whose [base_ns_err_] is the
    clamped error, and whose [next_calibrate_tsc_] is recomputed from the new
    base, the new ratio and the stored calibration interval. *)
Theorem calibrate_commits_snapshot (fuel : nat) (ns_uninit : Z) (m : Machine) :
  stable (self m) -> slow_path m ->
  exists (predicted : Z) (m' : Machine),
    let '(tsc, ns) := calibrate_sample m in
    let err := clamp_ns_err (sub64 predicted ns) in
    tsc2ns (S fuel) ns_uninit tsc (after_sample m) = Some (predicted, after_sample m) /\
    calibrate (S fuel) ns_uninit m = Some (tt, m') /\
    base_tsc_ (self m') = tsc /\
    base_ns_ (self m') = add64 ns err /\
    base_ns_err_ (self m') = err /\
    calibrate_interval_ns_ (self m') = calibrate_interval_ns_ (self m) /\
    next_calibrate_tsc_ (self m') =
      add64 tsc (to_int64 (fdiv (of_int64 (sub64 (calibrate_interval_ns_ (self m)) 1000))
                                (ns_per_tsc_ (self m')))).
Proof.
  intros St Sl.
  pose proof (calibrate_slow_run fuel ns_uninit m St Sl) as R.
  destruct (calibrate_sample m) as [tsc ns] eqn:Es.
  exists ns_uninit. eexists. cbn zeta.
  split; [apply tsc2ns_stable; exact St|].
  split; [exact R|].
  cbn. repeat split; reflexivity.
Qed.

Lemma calibrate_commits_snapshot_witness :
  stable (self machine_near) /\ slow_path machine_near /\
  exists m', calibrate 1 3015 machine_near = Some (tt, m') /\
             base_tsc_ (self m') = 3015 /\
             base_ns_ (self m') = 2900 + 115 /\
             base_ns_err_ (self m') = 115 /\
             next_calibrate_tsc_ (self m') = 3247757767.
Proof.
  assert (St : stable (self machine_near)) by (split; [cbn; lia|reflexivity]).
  assert (Sl : slow_path machine_near) by (vm_compute; discriminate).
  split; [exact St|]. split; [exact Sl|].
  destruct (calibrate_commits_snapshot 0 3015 machine_near St Sl)
    as (predicted & m' & W).
  exists m'.
  assert (Es : calibrate_sample machine_near = (3015, 2900)) by (vm_compute; reflexivity).
  rewrite Es in W. cbn zeta in W.
  destruct W as (T & C & Bt & Bn & Be & Ci & Nx).
  rewrite tsc2ns_stable in T by exact St.
  assert (predicted = 3015) by congruence. subst predicted.
  split; [exact C|].
  split; [exact Bt|]. split; [rewrite Bn; vm_compute; reflexivity|].
  split; [rewrite Be; vm_compute; reflexivity|].
  rewrite Nx.
  pose proof (calibrate_slow_run 0 3015 machine_near St Sl) as R.
  rewrite Es in R. cbn zeta in R. rewrite C in R.
  injection R as R. rewrite R. vm_compute. reflexivity.
Defined.

(** ** [syncTime] *)

Lemma sync_of_best (c : Clocks) :
  exists best : nat,
    (1 <= best <= 3)%nat /\
    sync_of c = (Z.shiftr (add64 (tsc_at c best) (tsc_at c (best - 1))) 1,
                 sys_at c (best - 1)) /\
    (forall i, (1 <= i <= 3)%nat -> pair_delta c best <= pair_delta c i) /\
    (forall i, (1 <= i < best)%nat -> pair_delta c best < pair_delta c i).
Proof.
  unfold sync_of, best_loop, array_get. cbn [nth Nat.sub].
  destruct (Z.ltb_spec (sub64 (tsc_at c 2) (tsc_at c 1)) (sub64 (tsc_at c 1) (tsc_at c 0)))
    as [L21|G21]; cbn [nth Nat.sub].
  - destruct (Z.ltb_spec (sub64 (tsc_at c 3) (tsc_at c 2)) (sub64 (tsc_at c 2) (tsc_at c 1)))
      as [L32|G32]; cbn [nth Nat.sub].
    + exists 3%nat. split; [lia|]. split; [reflexivity|].
      split; intros i Hi; assert (i = 1 \/ i = 2 \/ i = 3)%nat as [-> | [-> | ->]] by lia;
        unfold pair_delta; cbn [Nat.sub]; lia.
    + exists 2%nat. split; [lia|]. split; [reflexivity|].
      split; intros i Hi; assert (i = 1 \/ i = 2 \/ i = 3)%nat as [-> | [-> | ->]] by lia;
        unfold pair_delta; cbn [Nat.sub]; lia.
  - destruct (Z.ltb_spec (sub64 (tsc_at c 3) (tsc_at c 2)) (sub64 (tsc_at c 1) (tsc_at c 0)))
      as [L31|G31]; cbn [nth Nat.sub].
    + exists 3%nat. split; [lia|]. split; [reflexivity|].
      split; intros i Hi; assert (i = 1 \/ i = 2 \/ i = 3)%nat as [-> | [-> | ->]] by lia;
        unfold pair_delta; cbn [Nat.sub]; lia.
    + exists 1%nat. split; [lia|]. split; [reflexivity|].
      split; intros i Hi; assert (i = 1 \/ i = 2 \/ i = 3)%nat as [-> | [-> | ->]] by lia;
        unfold pair_delta; cbn [Nat.sub]; lia.
Qed.

Lemma shiftr1_average (a b : Z) :
  in_int64 (a + b) -> Z.shiftr (add64 a b) 1 = (a + b) / 2.
Proof.
  intros H. unfold add64. rewrite (wrap64_id _ H).
  rewrite Z.shiftr_div_pow2 by lia. reflexivity.
Qed.

(** The wall-clock value [syncTime] returns is one of the three it reads. *)
Lemma sync_of_ns_cases (c : Clocks) :
  snd (sync_of c) = sys_at c 0 \/ snd (sync_of c) = sys_at c 1 \/
  snd (sync_of c) = sys_at c 2.
Proof.
  destruct (sync_of_best c) as (best & Hb & E & _). rewrite E. cbn [snd].
  assert (best = 1 \/ best = 2 \/ best = 3)%nat as [-> | [-> | ->]] by lia; cbn [Nat.sub]; auto.
Qed.

Lemma sync_of_ns_range (c : Clocks) : in_int64 (snd (sync_of c)).
Proof.
  destruct (sync_of_ns_cases c) as [E|[E|E]]; rewrite E; apply wrap64_range.
Qed.

(** C5, as the code has it.  [syncTime] takes four counter samples
    [tick[0..3]] interleaved with three wall-clock samples [wall_ns[1..3]]
    (here [tsc_at c i] and [sys_at c (i - 1)]).  Among ALL the adjacent pairs
    [(tick[i-1], tick[i])], [i = 1..3], it selects the first one whose 64-bit
    counter delta is smallest; it returns
    [(tick[best] + tick[best-1]) >> 1] computed in 64 bits, which is the
    (floor of the) average of the two counter values when their sum does not
    overflow, and [wall_ns[best]]. *)
Theorem syncTime_selects_tightest_pair (m : Machine) :
  exists best : nat,
    (1 <= best <= 3)%nat /\
    (forall i, (1 <= i <= 3)%nat -> pair_delta (env m) best <= pair_delta (env m) i) /\
    (forall i, (1 <= i < best)%nat -> pair_delta (env m) best < pair_delta (env m) i) /\
    syncTime m =
      Some ((Z.shiftr (add64 (tsc_at (env m) best) (tsc_at (env m) (best - 1))) 1,
             sys_at (env m) (best - 1)),
            mkMachine (self m) (advance 4 3 (env m)) (log m)) /\
    (in_int64 (tsc_at (env m) best + tsc_at (env m) (best - 1)) ->
     syncTime m =
       Some (((tsc_at (env m) best + tsc_at (env m) (best - 1)) / 2,
              sys_at (env m) (best - 1)),
             mkMachine (self m) (advance 4 3 (env m)) (log m))).
Proof.
  destruct (sync_of_best (env m)) as (best & Hb & E & Hmin & Hfirst).
  exists best. split; [exact Hb|]. split; [exact Hmin|]. split; [exact Hfirst|].
  rewrite syncTime_run, E. split; [reflexivity|].
  intros R. now rewrite shiftr1_average.
Qed.

(** Deltas 10, 10, 10: the first pair is kept, the average of 3000 and 3010
    is returned with the first wall-clock sample. *)
Lemma syncTime_selects_tightest_pair_witness :
  in_int64 (tsc_at (env machine_near) 1 + tsc_at (env machine_near) 0) /\
  exists m', syncTime machine_near = Some ((3005, 2900), m').
Proof.
  split; [vm_compute; split; discriminate|].
  destruct (syncTime_selects_tightest_pair machine_near)
    as (best & Hb & Hmin & Hfirst & _ & Avg).
  assert (best = 1)%nat as ->.
  { assert (best = 1 \/ best = 2 \/ best = 3)%nat as [E|[E|E]] by lia; [exact E| |];
      subst best; specialize (Hfirst 1%nat ltac:(lia)); vm_compute in Hfirst; discriminate. }
  eexists. rewrite Avg; [reflexivity|]. vm_compute; split; discriminate.
Defined.

(** C5 does not hold as stated.  With counter samples 100, 101, 110, 120 the
    first pair [(tick[0], tick[1])] is the tightest and is the one returned
    (tick 100, first wall-clock sample), although it is not among the pairs
    [i = 2..N]; and with counter samples from [2^62] on, the 64-bit sum
    overflows and the tick returned is negative, not the average. *)
Lemma syncTime_first_pair_or_overflow :
  (syncTime machine_tight_first =
     Some ((100, 5000), mkMachine fresh_object (advance 4 3 clocks_tight_first) []) /\
   ~ selects_among_later_pairs machine_tight_first) /\
  (exists m', syncTime machine_high_counter = Some ((- 2 ^ 62 + 5, 5000), m') /\
              tsc_at clocks_high_counter 0 = 2 ^ 62 /\
              tsc_at clocks_high_counter 1 = 2 ^ 62 + 10).
Proof.
  split; [split|].
  - vm_compute. reflexivity.
  - intros (best & Hb & _ & m' & E).
    rewrite syncTime_run in E.
    replace (sync_of (env machine_tight_first)) with (100, 5000) in E
      by (vm_compute; reflexivity).
    assert (best = 2 \/ best = 3)%nat as [-> | ->] by lia;
      vm_compute in E; discriminate E.
  - eexists. rewrite syncTime_run.
    replace (sync_of (env machine_high_counter)) with (- 2 ^ 62 + 5, 5000)
      by (vm_compute; reflexivity).
    split; [reflexivity|]. split; vm_compute; reflexivity.
Qed.

(** ** [init] *)

(** C8, as the code has it.  When the wall clock reaches
    [base_ns + init_calibrate_ns] (a 64-bit sum) within the fuel ([k] being the
    first reading of the wait that does), [init] returns and the committed
    snapshot has [base_tsc_] and [base_ns_] equal to the first synchronized
    pair, [ns_per_tsc_] equal to [(ns2 - ns1) / (tick2 - tick1)] for the
    second synchronized pair, which is sampled after that reading, and
    [base_ns_err_ = 0].  The two pairs are at least [init_calibrate_ns] apart
    when, moreover, the clock does not step back after that reading and
    [ns1 + init_calibrate_ns] does not overflow. *)
Theorem init_commits_first_snapshot
    (k fuel : nat) (init_calibrate_ns calibrate_interval_ns : Z) (m : Machine) :
  let '(tick1, ns1) := sync_of (env m) in
  let waiting := advance 4 3 (env m) in
  let expire_ns := add64 ns1 init_calibrate_ns in
  (k < fuel)%nat ->
  (forall j, (j < k)%nat -> sys_at waiting j < expire_ns) ->
  expire_ns <= sys_at waiting k ->
  exists m',
    init fuel init_calibrate_ns calibrate_interval_ns m = Some (tt, m') /\
    let '(tick2, ns2) := sync_of (advance 0 (S k) waiting) in
    base_tsc_ (self m') = tick1 /\
    base_ns_ (self m') = ns1 /\
    ns_per_tsc_ (self m') =
      fdiv (of_int64 (sub64 ns2 ns1)) (of_int64 (sub64 tick2 tick1)) /\
    base_ns_err_ (self m') = 0 /\
    calibrate_interval_ns_ (self m') = calibrate_interval_ns /\
    ((forall i, sys_at waiting k <= sys_at waiting (k + i)) ->
     in_int64 (ns1 + init_calibrate_ns) ->
     init_calibrate_ns <= ns2 - ns1).
Proof.
  pose proof (init_run k fuel init_calibrate_ns calibrate_interval_ns m) as R.
  pose proof (sync_of_ns_range (env m)) as Rg.
  destruct (sync_of (env m)) as [tick1 ns1]. cbn [snd] in Rg. cbn zeta in *.
  intros Hf Hb He. specialize (R Hf Hb He).
  pose proof (sync_of_ns_cases (advance 0 (S k) (advance 4 3 (env m)))) as Cs.
  destruct (sync_of (advance 0 (S k) (advance 4 3 (env m)))) as [tick2 ns2].
  cbn [snd] in Cs.
  eexists. split; [exact R|]. cbn.
  split; [reflexivity|]. split; [now apply add64_0_r|].
  split; [reflexivity|]. split; [reflexivity|]. split; [reflexivity|].
  intros Mono NoWrap.
  unfold add64 in He. rewrite (wrap64_id _ NoWrap) in He.
  remember (advance 4 3 (env m)) as waiting eqn:Ew. clear Ew.
  rewrite !sys_at_advance in Cs.
  destruct Cs as [E|[E|E]]; rewrite E.
  - specialize (Mono 1%nat). replace (0 + S k)%nat with (k + 1)%nat by lia. lia.
  - specialize (Mono 2%nat). replace (1 + S k)%nat with (k + 2)%nat by lia. lia.
  - specialize (Mono 3%nat). replace (2 + S k)%nat with (k + 3)%nat by lia. lia.
Qed.

(** Booting with [init(40, 3000000000)] on a clock that advances 7 ns per
    reading: the first pair is (1005, 5000), the wait ends at its fourth
    reading, the second pair is (1045, 5049). *)
Lemma init_commits_first_snapshot_witness :
  exists m',
    init 10 40 3000000000 machine_boot = Some (tt, m') /\
    base_tsc_ (self m') = 1005 /\ base_ns_ (self m') = 5000 /\
    ns_per_tsc_ (self m') = fdiv (of_int64 49) (of_int64 40) /\
    base_ns_err_ (self m') = 0.
Proof.
  pose proof (init_commits_first_snapshot 3 10 40 3000000000 machine_boot) as W.
  assert (E1 : sync_of (env machine_boot) = (1005, 5000)) by (vm_compute; reflexivity).
  rewrite E1 in W. cbn zeta in W.
  assert (E2 : sync_of (advance 0 4 (advance 4 3 (env machine_boot))) = (1045, 5049))
    by (vm_compute; reflexivity).
  rewrite E2 in W.
  destruct W as (m' & I & Bt & Bn & Rt & Be & _).
  - lia.
  - intros j Hj. assert (j = 0 \/ j = 1 \/ j = 2)%nat as [-> | [-> | ->]] by lia;
      vm_compute; reflexivity.
  - vm_compute. discriminate.
  - exists m'. split; [exact I|]. split; [exact Bt|]. split; [exact Bn|].
    split; [exact Rt|exact Be].
Defined.

(** C8 does not hold as stated: the wait ends at the first reading that has
    reached the expiry, and nothing holds the wall clock there.  With readings
    5000, 5007, 5014 (first pair), 5021, 9999 (end of the wait for
    [init_calibrate_ns = 40]), 5030, ... the second pair is taken 30 ns after
    the first, and the ratio is computed from these 30 ns. *)
Lemma init_pairs_closer_than_wait :
  exists m',
    init 10 40 3000000000 machine_stepping = Some (tt, m') /\
    sync_of (env machine_stepping) = (1005, 5000) /\
    sync_of (advance 0 2 (advance 4 3 (env machine_stepping))) = (1045, 5030) /\
    base_tsc_ (self m') = 1005 /\ base_ns_ (self m') = 5000 /\
    ns_per_tsc_ (self m') = fdiv (of_int64 (sub64 5030 5000)) (of_int64 (sub64 1045 1005)) /\
    5030 - 5000 < 40.
Proof.
  pose proof (init_run 1 10 40 3000000000 machine_stepping) as R.
  assert (E1 : sync_of (env machine_stepping) = (1005, 5000)) by (vm_compute; reflexivity).
  assert (E2 : sync_of (advance 0 2 (advance 4 3 (env machine_stepping))) = (1045, 5030))
    by (vm_compute; reflexivity).
  rewrite E1 in R. cbn zeta in R. rewrite E2 in R.
  eexists. split.
  - apply R.
    + lia.
    + intros j Hj. assert (j = 0)%nat as -> by lia. vm_compute. reflexivity.
    + vm_compute. discriminate.
  - cbn [self committed base_tsc_ base_ns_ ns_per_tsc_].
    split; [exact E1|]. split; [exact E2|]. split; [reflexivity|].
    split; [vm_compute; reflexivity|]. split; [reflexivity|lia].
Qed.

(** ** The commit sequence *)

Lemma commit_events_guarded (pre : list event) (s : Z) :
  Z.even s = true ->
  Forall (fun e => exists f, e = EvStore f s /\ read_by_tsc2ns f = false) pre ->
  guarded_commit s (commit_events pre s).
Proof.
  intros E F. exists pre. split; [reflexivity|].
  split; [now apply u32_even_succ|]. split; [now apply u32_even_plus2|exact F].
Qed.

(** C9, as the code has it.  In every commit performed by [saveParam], and
    hence by [init] and by the slow path of [calibrate], the stores to
    [base_tsc_], [base_ns_] and [ns_per_tsc_] (the data members [tsc2ns]
    reads) occur between the first store to the sequence counter, which makes
    it odd, and the second, which makes it even.  The stores to
    [base_ns_err_] and [next_calibrate_tsc_], and in [init] to
    [calibrate_interval_ns_], precede the first increment. *)
Theorem commit_guards_fields_read_by_tsc2ns :
  (forall (base_tsc sys_ns base_ns_err : Z) (r : double) (m : Machine),
      Z.even (param_seq_ (self m)) = true ->
      exists m' evs,
        saveParam base_tsc sys_ns base_ns_err r m = Some (tt, m') /\
        log m' = log m ++ evs /\
        guarded_commit (param_seq_ (self m)) evs) /\
  (forall (fuel : nat) (ns_uninit : Z) (m : Machine),
      stable (self m) -> slow_path m ->
      exists m' evs,
        calibrate (S fuel) ns_uninit m = Some (tt, m') /\
        log m' = log m ++ evs /\
        guarded_commit (param_seq_ (self m)) evs) /\
  (forall (k fuel : nat) (init_calibrate_ns calibrate_interval_ns : Z) (m : Machine),
      Z.even (param_seq_ (self m)) = true ->
      (k < fuel)%nat ->
      (forall j, (j < k)%nat ->
         sys_at (advance 4 3 (env m)) j < add64 (snd (sync_of (env m))) init_calibrate_ns) ->
      add64 (snd (sync_of (env m))) init_calibrate_ns <= sys_at (advance 4 3 (env m)) k ->
      exists m' evs,
        init fuel init_calibrate_ns calibrate_interval_ns m = Some (tt, m') /\
        log m' = log m ++ evs /\
        guarded_commit (param_seq_ (self m)) evs).
Proof.
  split; [|split].
  - intros base_tsc sys_ns base_ns_err r m E.
    eexists. eexists. split; [apply saveParam_run|]. split; [reflexivity|].
    apply commit_events_guarded; [exact E|].
    repeat constructor; eexists; split; reflexivity.
  - intros fuel ns_uninit m St Sl.
    pose proof (calibrate_slow_run fuel ns_uninit m St Sl) as R.
    destruct (calibrate_sample m) as [tsc ns]. cbn zeta in R.
    eexists. eexists. split; [exact R|]. split; [reflexivity|].
    apply commit_events_guarded; [apply St|].
    repeat constructor; eexists; split; reflexivity.
  - intros k fuel a b m E Hf Hb He.
    pose proof (init_run k fuel a b m) as R.
    destruct (sync_of (env m)) as [tick1 ns1]. cbn [snd] in Hb, He. cbn zeta in R.
    specialize (R Hf Hb He).
    destruct (sync_of (advance 0 (S k) (advance 4 3 (env m)))) as [tick2 ns2].
    eexists. eexists. split; [exact R|]. split; [reflexivity|].
    apply commit_events_guarded; [exact E|].
    repeat constructor; eexists; split; reflexivity.
Qed.

(** A direct commit, a slow-path [calibrate] and an [init], each from
    sequence number 0: the three guarded stores sit between [EvSeq 0 1] and
    [EvSeq 1 2]. *)
Lemma commit_guards_fields_read_by_tsc2ns_witness :
  (exists m',
      saveParam 3015 2900 115 one machine_near = Some (tt, m') /\
      log m' = [EvStore F_base_ns_err 0; EvStore F_next_calibrate_tsc 0;
                EvSeq 0 1;
                EvStore F_base_tsc 1; EvStore F_base_ns 1; EvStore F_ns_per_tsc 1;
                EvSeq 1 2]) /\
  (exists m' evs,
      calibrate 1 3015 machine_near = Some (tt, m') /\
      log m' = log machine_near ++ evs /\ guarded_commit 0 evs) /\
  (exists m' evs,
      init 10 40 3000000000 machine_boot = Some (tt, m') /\
      log m' = log machine_boot ++ evs /\ guarded_commit 0 evs).
Proof.
  destruct commit_guards_fields_read_by_tsc2ns as (Ws & Wc & Wi).
  split; [|split].
  - destruct (Ws 3015 2900 115 one machine_near eq_refl) as (m' & evs & R & L & G).
    exists m'. split; [exact R|].
    rewrite saveParam_run in R. injection R as R. rewrite <- R. reflexivity.
  - apply (Wc 0%nat 3015 machine_near).
    + split; [cbn; lia|reflexivity].
    + vm_compute. discriminate.
  - apply (Wi 3%nat 10%nat 40 3000000000 machine_boot).
    + reflexivity.
    + lia.
    + intros j Hj. assert (j = 0 \/ j = 1 \/ j = 2)%nat as [-> | [-> | ->]] by lia;
        vm_compute; reflexivity.
    + vm_compute. discriminate.
Defined.

(** C9 does not hold as stated: [saveParam] stores [base_ns_err_] and
    [next_calibrate_tsc_] before it touches the sequence counter, that is
    while the counter is even. *)
Lemma saveParam_stores_while_even :
  exists m',
    saveParam 3015 2900 115 one machine_near = Some (tt, m') /\
    In (EvStore F_base_ns_err 0) (log m') /\
    In (EvStore F_next_calibrate_tsc 0) (log m') /\
    ~ all_stores_guarded (log m').
Proof.
  eexists. split; [apply saveParam_run|]. cbn.
  split; [auto|]. split; [auto|].
  intros G. specialize (G F_base_ns_err 0 (or_introl eq_refl)). discriminate G.
Qed.

(** ** The sequence counter *)

Lemma u32_plus2_advanced (o o' : TSCNS) :
  0 <= param_seq_ o < 2 ^ 32 ->
  param_seq_ o' = u32 (param_seq_ o + 2) -> seq_advanced o o'.
Proof.
  intros R E. unfold seq_advanced. rewrite E. unfold u32.
  split; [reflexivity|]. split.
  - rewrite <- !Z.negb_odd. f_equal.
    rewrite <- !Z.bit0_odd, Z.mod_pow2_bits_low by lia.
    rewrite !Z.bit0_odd, Z.odd_add. cbn. now rewrite xorb_false_r.
  - split; intros H.
    + rewrite Z.mod_small; lia.
    + replace (param_seq_ o + 2) with (param_seq_ o + 2 - 2 ^ 32 + 1 * 2 ^ 32) by lia.
      rewrite Z.mod_add by lia. rewrite Z.mod_small; lia.
Qed.

(** C10, as the code has it.  Every call to [saveParam], hence every completed
    [init] and every slow-path [calibrate], adds 2 to the [uint32_t] sequence
    counter modulo [2^32]: the counter grows by exactly 2 while it is below
    [2^32 - 2] and wraps to 0 from [2^32 - 2]; its parity is preserved, so
    that a counter that starts at 0 is even whenever no commit is in
    progress. *)
Theorem commit_advances_seq_by_two :
  (forall (base_tsc sys_ns base_ns_err : Z) (r : double) (m : Machine),
      0 <= param_seq_ (self m) < 2 ^ 32 ->
      exists m',
        saveParam base_tsc sys_ns base_ns_err r m = Some (tt, m') /\
        seq_advanced (self m) (self m')) /\
  (forall (fuel : nat) (ns_uninit : Z) (m : Machine),
      stable (self m) -> slow_path m ->
      exists m',
        calibrate (S fuel) ns_uninit m = Some (tt, m') /\
        seq_advanced (self m) (self m')) /\
  (forall (k fuel : nat) (init_calibrate_ns calibrate_interval_ns : Z) (m : Machine),
      0 <= param_seq_ (self m) < 2 ^ 32 ->
      (k < fuel)%nat ->
      (forall j, (j < k)%nat ->
         sys_at (advance 4 3 (env m)) j < add64 (snd (sync_of (env m))) init_calibrate_ns) ->
      add64 (snd (sync_of (env m))) init_calibrate_ns <= sys_at (advance 4 3 (env m)) k ->
      exists m',
        init fuel init_calibrate_ns calibrate_interval_ns m = Some (tt, m') /\
        seq_advanced (self m) (self m')).
Proof.
  split; [|split].
  - intros base_tsc sys_ns base_ns_err r m Rg.
    eexists. split; [apply saveParam_run|].
    apply u32_plus2_advanced; [exact Rg|reflexivity].
  - intros fuel ns_uninit m St Sl.
    pose proof (calibrate_slow_run fuel ns_uninit m St Sl) as R.
    destruct (calibrate_sample m) as [tsc ns]. cbn zeta in R.
    eexists. split; [exact R|].
    apply u32_plus2_advanced; [apply St|reflexivity].
  - intros k fuel a b m Rg Hf Hb He.
    pose proof (init_run k fuel a b m) as R.
    destruct (sync_of (env m)) as [tick1 ns1]. cbn [snd] in Hb, He. cbn zeta in R.
    specialize (R Hf Hb He).
    destruct (sync_of (advance 0 (S k) (advance 4 3 (env m)))) as [tick2 ns2].
    eexists. split; [exact R|].
    apply u32_plus2_advanced; [exact Rg|reflexivity].
Qed.

Lemma commit_advances_seq_by_two_witness :
  (exists m',
      saveParam 3015 2900 115 one machine_near = Some (tt, m') /\
      param_seq_ (self m') = 2) /\
  (exists m',
      calibrate 1 3015 machine_near = Some (tt, m') /\
      param_seq_ (self m') = 2) /\
  (exists m',
      init 10 40 3000000000 machine_boot = Some (tt, m') /\
      param_seq_ (self m') = 2).
Proof.
  destruct commit_advances_seq_by_two as (Ws & Wc & Wi).
  split; [|split].
  - destruct (Ws 3015 2900 115 one machine_near) as (m' & R & A & _).
    + cbn. lia.
    + exists m'. split; [exact R|]. rewrite A. reflexivity.
  - destruct (Wc 0%nat 3015 machine_near) as (m' & R & A & _).
    + split; [cbn; lia|reflexivity].
    + vm_compute. discriminate.
    + exists m'. split; [exact R|]. rewrite A. reflexivity.
  - destruct (Wi 3%nat 10%nat 40 3000000000 machine_boot) as (m' & R & A & _).
    + cbn. lia.
    + lia.
    + intros j Hj. assert (j = 0 \/ j = 1 \/ j = 2)%nat as [-> | [-> | ->]] by lia;
        vm_compute; reflexivity.
    + vm_compute. discriminate.
    + exists m'. split; [exact R|]. rewrite A. reflexivity.
Defined.

(** C10 does not hold as stated: from [2^32 - 2] the counter goes to 0, which
    is neither "plus 2" nor "not smaller". *)
Lemma saveParam_wraps_seq :
  exists m',
    saveParam 3015 2900 115 one machine_last_seq = Some (tt, m') /\
    param_seq_ (self machine_last_seq) = 4294967294 /\
    param_seq_ (self m') = 0 /\
    param_seq_ (self m') <> param_seq_ (self machine_last_seq) + 2 /\
    param_seq_ (self m') < param_seq_ (self machine_last_seq).
Proof.
  eexists. split; [apply saveParam_run|]. cbn.
  split; [reflexivity|]. split; [reflexivity|]. split; [discriminate|reflexivity].
Qed.

(** ** Rounding to nearest even is monotone *)

Section RoundNearestEven.

Lemma pow2_pos (k : Z) : 0 <= k -> 0 < 2 ^ k.
Proof. intros. apply Z.pow_pos_nonneg; lia. Qed.

Lemma pow2_half (k : Z) : 0 < k -> 2 ^ k = 2 * 2 ^ (k - 1).
Proof.
  intros H. replace k with (1 + (k - 1)) at 1 by lia.
  rewrite Z.pow_add_r by lia. reflexivity.
Qed.

Lemma rne_0 (m : Z) : rne m 0 = m.
Proof. reflexivity. Qed.

(** The quotient and remainder [rne] works on. *)
Lemma rne_cases (m k : Z) :
  0 < k ->
  exists q r h,
    0 < h /\ 2 ^ k = 2 * h /\ m = 2 * h * q + r /\ 0 <= r < 2 * h /\
    ((r < h /\ rne m k = q) \/
     (h < r /\ rne m k = q + 1) \/
     (r = h /\ Z.even q = true /\ rne m k = q) \/
     (r = h /\ Z.even q = false /\ rne m k = q + 1)).
Proof.
  intros K. exists (m / 2 ^ k), (m mod 2 ^ k), (2 ^ (k - 1)).
  pose proof (pow2_pos (k - 1) ltac:(lia)) as Hh.
  pose proof (pow2_half k K) as HP.
  pose proof (Z.div_mod m (2 ^ k) ltac:(lia)) as DM.
  pose proof (Z.mod_pos_bound m (2 ^ k) ltac:(lia)) as MB.
  split; [exact Hh|]. split; [exact HP|].
  split; [rewrite <- HP; exact DM|]. split; [lia|].
  unfold rne. destruct (Z.leb_spec k 0); [lia|]. cbn zeta.
  destruct (Z.ltb_spec (m mod 2 ^ k) (2 ^ (k - 1))); [left; split; [assumption|reflexivity]|].
  destruct (Z.ltb_spec (2 ^ (k - 1)) (m mod 2 ^ k)); [right; left; split; [assumption|reflexivity]|].
  destruct (Z.even (m / 2 ^ k)) eqn:Ev.
  - right; right; left. repeat split; lia.
  - right; right; right. repeat split; lia.
Qed.

Lemma rne_mono (m1 m2 k : Z) : m1 <= m2 -> rne m1 k <= rne m2 k.
Proof.
  intros Hm. destruct (Z.leb_spec k 0) as [K|K].
  - unfold rne. destruct (Z.leb_spec k 0); [exact Hm|lia].
  - destruct (rne_cases m1 k K) as (q1 & r1 & h & Hh & HP & E1 & B1 & C1).
    destruct (rne_cases m2 k K) as (q2 & r2 & h' & Hh' & HP' & E2 & B2 & C2).
    assert (h' = h) by lia. subst h'.
    assert (q1 < q2 \/ (q1 = q2 /\ r1 <= r2)) as [Q|[Q R]] by nia.
    + destruct C1 as [[_ ->]|[[_ ->]|[(_ & _ & ->)|(_ & _ & ->)]]];
        destruct C2 as [[_ ->]|[[_ ->]|[(_ & _ & ->)|(_ & _ & ->)]]]; lia.
    + subst q2.
      destruct C1 as [[? ->]|[[? ->]|[(? & Ev1 & ->)|(? & Ev1 & ->)]]];
        destruct C2 as [[? ->]|[[? ->]|[(? & Ev2 & ->)|(? & Ev2 & ->)]]];
        try lia; congruence.
Qed.

(** Scaling numerator and denominator by the same power of two. *)
Lemma rne_scale (m k j : Z) :
  0 <= k -> 0 <= j -> rne (m * 2 ^ j) (k + j) = rne m k.
Proof.
  intros K J.
  pose proof (pow2_pos j J) as Pj.
  destruct (Z.eq_dec j 0) as [->|Jn].
  { rewrite Z.add_0_r. change (2 ^ 0) with 1. now rewrite Z.mul_1_r. }
  destruct (Z.eq_dec k 0) as [->|Kn].
  - rewrite rne_0. cbn [Z.add].
    destruct (rne_cases (m * 2 ^ j) j ltac:(lia)) as (q & r & h & Hh & HP & E & B & C).
    assert (m = q /\ 0 = r) as [<- <-].
    { apply (Z.div_mod_unique (2 * h)); [lia|lia|]. rewrite <- HP. lia. }
    destruct C as [[_ ->]|[[? _]|[(? & _)|(? & _)]]]; lia.
  - destruct (rne_cases m k ltac:(lia)) as (q & r & h & Hh & HP & E & B & C).
    destruct (rne_cases (m * 2 ^ j) (k + j) ltac:(lia))
      as (q' & r' & h' & Hh' & HP' & E' & B' & C').
    rewrite Z.pow_add_r in HP' by lia.
    assert (h' = h * 2 ^ j) by nia. subst h'.
    assert (q = q' /\ r * 2 ^ j = r') as [<- <-].
    { apply (Z.div_mod_unique (2 * (h * 2 ^ j))); [nia|lia|]. nia. }
    destruct C as [[? ->]|[[? ->]|[(? & Ev1 & ->)|(? & Ev1 & ->)]]];
      destruct C' as [[? ->]|[[? ->]|[(? & Ev2 & ->)|(? & Ev2 & ->)]]];
      try reflexivity; try congruence; nia.
Qed.

(** A multiple of the grid is its own rounding. *)
Lemma rne_exact (g k : Z) : 0 <= k -> rne (g * 2 ^ k) k = g.
Proof.
  intros K. rewrite <- (rne_0 g) at 2.
  replace k with (0 + k) at 2 by lia. apply rne_scale; lia.
Qed.

Lemma rne_nonneg (m k : Z) : 0 <= m -> 0 <= rne m k.
Proof.
  intros H. destruct (Z.leb_spec k 0) as [K|K].
  - unfold rne. destruct (Z.leb_spec k 0); lia.
  - replace 0 with (rne (0 * 2 ^ k) k) at 1 by (apply rne_exact; lia).
    apply rne_mono. lia.
Qed.

End RoundNearestEven.

(** ** The shift-and-round of [SpecFloat] computes [rne] *)

Section ShiftRight.

Lemma iter_pos_nat {A : Type} (f : A -> A) (p : positive) :
  forall x, iter_pos f p x = Nat.iter (Pos.to_nat p) f x.
Proof.
  induction p as [p IH|p IH|]; intros x; cbn [iter_pos].
  - rewrite !IH, Pos2Nat.inj_xI.
    replace (S (2 * Pos.to_nat p)) with (Pos.to_nat p + (Pos.to_nat p + 1))%nat by lia.
    rewrite !Nat.iter_add. reflexivity.
  - rewrite !IH, Pos2Nat.inj_xO.
    replace (2 * Pos.to_nat p)%nat with (Pos.to_nat p + Pos.to_nat p)%nat by lia.
    rewrite Nat.iter_add. reflexivity.
  - reflexivity.
Qed.

Lemma shr_1_nonneg (m : Z) (r s : bool) :
  0 <= m ->
  shr_1 (Build_shr_record m r s) = Build_shr_record (m / 2) (Z.odd m) (r || s).
Proof.
  intros H. rewrite <- Z.div2_div.
  destruct m as [|[p|p|]|p]; try reflexivity. lia.
Qed.

Lemma shifted_first (m : Z) :
  0 <= m -> shr_1 (Build_shr_record m false false) = shifted m 1.
Proof.
  intros H. rewrite shr_1_nonneg by exact H. unfold shifted.
  change (2 ^ 1) with 2. change (2 ^ (1 - 1)) with 1.
  rewrite Z.mod_1_r. cbn [Z.eqb negb orb]. f_equal.
  rewrite Zodd_mod.
  pose proof (Z.mod_pos_bound m 2 ltac:(lia)).
  destruct (Z.eqb_spec (m mod 2) 1), (Z.leb_spec 1 (m mod 2)); lia || reflexivity.
Qed.

Lemma shifted_next (m k : Z) :
  0 <= m -> 0 < k -> shr_1 (shifted m k) = shifted m (k + 1).
Proof.
  intros Hm Hk. unfold shifted.
  pose proof (pow2_pos k ltac:(lia)) as Pk.
  pose proof (pow2_pos (k - 1) ltac:(lia)) as Ph.
  pose proof (pow2_half k Hk) as HP.
  rewrite shr_1_nonneg by (apply Z.div_pos; lia).
  replace (k + 1 - 1) with k by lia.
  assert (E2 : 2 ^ (k + 1) = 2 ^ k * 2) by (rewrite Z.pow_add_r by lia; reflexivity).
  rewrite E2, Z.rem_mul_r by lia.
  pose proof (Z.mod_pos_bound m (2 ^ k) ltac:(lia)) as Br.
  pose proof (Z.mod_pos_bound (m / 2 ^ k) 2 ltac:(lia)) as Bb.
  f_equal.
  - rewrite Z.div_div by lia. reflexivity.
  - rewrite Zodd_mod.
    destruct (Z.eqb_spec ((m / 2 ^ k) mod 2) 1),
             (Z.leb_spec (2 ^ k) (m mod 2 ^ k + 2 ^ k * ((m / 2 ^ k) mod 2)));
      try reflexivity; nia.
  - replace ((m mod 2 ^ k + 2 ^ k * ((m / 2 ^ k) mod 2)) mod 2 ^ k) with (m mod 2 ^ k).
    2:{ rewrite Z.mul_comm, Z.mod_add by lia. rewrite Z.mod_mod by lia. reflexivity. }
    destruct (Z.leb_spec (2 ^ (k - 1)) (m mod 2 ^ k)) as [G|L]; cbn [orb].
    + destruct (Z.eqb_spec (m mod 2 ^ k) 0); [lia|reflexivity].
    + rewrite (Z.mod_small (m mod 2 ^ k) (2 ^ (k - 1))) by lia. reflexivity.
Qed.

Lemma iter_shr_1 (n : nat) (m : Z) :
  0 <= m ->
  Nat.iter (S n) shr_1 (Build_shr_record m false false) = shifted m (Z.of_nat (S n)).
Proof.
  intros Hm. induction n as [|n IH].
  - cbn [Nat.iter]. now apply shifted_first.
  - change (Nat.iter (S (S n)) shr_1 (Build_shr_record m false false))
      with (shr_1 (Nat.iter (S n) shr_1 (Build_shr_record m false false))).
    rewrite IH, shifted_next by lia. f_equal. lia.
Qed.

(** Rounding what [k] shifts leave gives [rne m k]. *)
Lemma round_shifted (m k : Z) :
  0 < k ->
  round_nearest_even (shr_m (shifted m k)) (loc_of_shr_record (shifted m k)) = rne m k.
Proof.
  intros K. unfold shifted, rne. cbn [shr_m loc_of_shr_record].
  destruct (Z.leb_spec k 0); [lia|]. cbn zeta.
  pose proof (pow2_pos (k - 1) ltac:(lia)) as Ph.
  pose proof (pow2_half k K) as HP.
  pose proof (Z.mod_pos_bound m (2 ^ k) ltac:(lia)) as Br.
  destruct (Z.leb_spec (2 ^ (k - 1)) (m mod 2 ^ k)) as [G|L].
  - destruct (Z.ltb_spec (m mod 2 ^ k) (2 ^ (k - 1))); [lia|].
    assert (Hr : (m mod 2 ^ k) mod 2 ^ (k - 1) = m mod 2 ^ k - 2 ^ (k - 1)).
    { replace (m mod 2 ^ k) with (m mod 2 ^ k - 2 ^ (k - 1) + 1 * 2 ^ (k - 1)) at 1 by lia.
      rewrite Z.mod_add by lia. apply Z.mod_small. lia. }
    rewrite Hr.
    destruct (Z.eqb_spec (m mod 2 ^ k - 2 ^ (k - 1)) 0) as [Z0|NZ]; cbn [negb].
    + destruct (Z.ltb_spec (2 ^ (k - 1)) (m mod 2 ^ k)); [lia|]. reflexivity.
    + destruct (Z.ltb_spec (2 ^ (k - 1)) (m mod 2 ^ k)); [|lia]. reflexivity.
  - destruct (Z.ltb_spec (m mod 2 ^ k) (2 ^ (k - 1))); [|lia].
    destruct (negb _); reflexivity.
Qed.

Lemma shr_exact (m e n : Z) :
  0 <= m -> 0 < n ->
  shr (shr_record_of_loc m loc_Exact) e n = (shifted m n, e + n).
Proof.
  intros Hm Hn. destruct n as [|p|p]; try lia.
  unfold shr, shr_record_of_loc. f_equal.
  rewrite iter_pos_nat.
  destruct (Pos2Nat.is_succ p) as [k Hk]. rewrite Hk.
  rewrite iter_shr_1 by exact Hm. f_equal. lia.
Qed.

Lemma shr_none (mrs : shr_record) (e n : Z) : n <= 0 -> shr mrs e n = (mrs, e).
Proof. intros H. destruct n; try reflexivity. lia. Qed.

End ShiftRight.

(** ** What [binary_round_aux] returns *)

Section BinaryRound.

Lemma digits2_pos_bounds (p : positive) :
  2 ^ (Zpos (digits2_pos p) - 1) <= Zpos p < 2 ^ Zpos (digits2_pos p).
Proof.
  induction p as [p IH|p IH|]; cbn [digits2_pos]; [| |cbn; lia];
    rewrite Pos2Z.inj_succ;
    replace (Z.succ (Zpos (digits2_pos p)) - 1) with (Zpos (digits2_pos p)) by lia;
    rewrite Z.pow_succ_r by lia;
    rewrite (pow2_half (Zpos (digits2_pos p))) in * by lia; lia.
Qed.

Lemma Zdigits2_bounds (m : Z) :
  0 < m -> 0 < Zdigits2 m /\ 2 ^ (Zdigits2 m - 1) <= m < 2 ^ Zdigits2 m.
Proof.
  intros H. destruct m as [|p|p]; try lia. cbn [Zdigits2].
  split; [lia|apply digits2_pos_bounds].
Qed.

(** The number of digits is the only [d] with [2^(d-1) <= m < 2^d]. *)
Lemma Zdigits2_unique (m d : Z) :
  0 < d -> 2 ^ (d - 1) <= m < 2 ^ d -> Zdigits2 m = d.
Proof.
  intros Hd [L U].
  assert (0 < m) as Hm by (pose proof (pow2_pos (d - 1) ltac:(lia)); lia).
  destruct (Zdigits2_bounds m Hm) as (D0 & DL & DU).
  assert (d - 1 < Zdigits2 m) by (apply (Z.pow_lt_mono_r_iff 2); lia).
  assert (Zdigits2 m - 1 < d) by (apply (Z.pow_lt_mono_r_iff 2); lia).
  lia.
Qed.

Lemma Zdigits2_le (m d : Z) : 0 < m -> 0 <= d -> m < 2 ^ d -> Zdigits2 m <= d.
Proof.
  intros Hm Hd U. destruct (Zdigits2_bounds m Hm) as (D0 & DL & DU).
  assert (Zdigits2 m - 1 < d) by (apply (Z.pow_lt_mono_r_iff 2); lia).
  lia.
Qed.

Lemma fexp64_eq (x : Z) : fexp64 x = Z.max (x - 53) (-1074).
Proof. reflexivity. Qed.

(** The rounded mantissa has at most [prec + 1] digits. *)
Lemma rne_le_2p53 (m e : Z) :
  0 < m -> e < fexp64 (Zdigits2 m + e) ->
  0 <= rne m (fexp64 (Zdigits2 m + e) - e) <= 2 ^ 53.
Proof.
  intros Hm Hn. split; [apply rne_nonneg; lia|].
  set (n := fexp64 (Zdigits2 m + e) - e) in *.
  assert (0 < n) by (unfold n; lia).
  destruct (Zdigits2_bounds m Hm) as (D0 & DL & DU).
  rewrite <- (rne_exact (2 ^ 53) n) by lia.
  apply rne_mono.
  assert (Zdigits2 m <= 53 + n) by (unfold n; rewrite fexp64_eq; lia).
  rewrite <- Z.pow_add_r by lia.
  assert (2 ^ Zdigits2 m <= 2 ^ (53 + n)) by (apply Z.pow_le_mono_r; lia).
  lia.
Qed.

Lemma bra_spec (s : bool) (m e : Z) :
  0 < m ->
  match binary_round_aux prec emax s m e loc_Exact with
  | S754_zero s' => s' = s /\ fst (rnd m e) = 0
  | S754_finite s' M f =>
      s' = s /\
      (rnd m e = (Zpos M, f) \/
       (rnd m e = (2 ^ 53, f - 1) /\ Zpos M = 2 ^ 52))
  | S754_infinity s' => s' = s
  | S754_nan => False
  end.
Proof.
  intros Hm. unfold binary_round_aux, shr_fexp, rnd.
  change (fexp prec emax) with fexp64.
  set (E := fexp64 (Zdigits2 m + e)).
  destruct (Z.ltb_spec e E) as [Lt|Ge].
  - (* the mantissa is shifted and rounded *)
    rewrite shr_exact by lia. rewrite round_shifted by lia.
    replace (e + (E - e)) with E by lia.
    pose proof (rne_le_2p53 m e Hm Lt) as [G0 G53]. fold E in G0, G53.
    set (G := rne m (E - e)) in *.
    assert (E >= -1074) by (unfold E; rewrite fexp64_eq; lia).
    destruct (Z.eq_dec G 0) as [Z0|NZ].
    { rewrite Z0. cbn [Zdigits2 Z.add]. rewrite shr_none by (rewrite fexp64_eq; lia).
      cbn. auto. }
    destruct (Z.eq_dec G (2 ^ 53)) as [Top|NTop].
    { rewrite Top. replace (Zdigits2 (2 ^ 53)) with 54 by reflexivity.
      rewrite shr_exact by (rewrite ?fexp64_eq; lia).
      replace (fexp64 (54 + E) - E) with 1 by (rewrite fexp64_eq; lia).
      replace (shr_m (shifted (2 ^ 53) 1)) with (Zpos (2 ^ 52)) by reflexivity.
      destruct (E + 1 <=? emax - prec); [|reflexivity].
      split; [reflexivity|]. right. split; [|reflexivity].
      f_equal. lia. }
    assert (Zdigits2 G <= 53) by (apply Zdigits2_le; lia).
    rewrite shr_none by (rewrite fexp64_eq; lia).
    cbn [shr_m shr_record_of_loc].
    destruct G as [|M|M]; try lia.
    destruct (E <=? emax - prec); [|reflexivity].
    split; [reflexivity|]. left. reflexivity.
  - (* the mantissa is kept as it is *)
    rewrite shr_none by lia. cbn [shr_record_of_loc shr_m loc_of_shr_record round_nearest_even].
    fold E. rewrite shr_none by lia. cbn [shr_record_of_loc shr_m].
    destruct m as [|M|M]; try lia.
    destruct (e <=? emax - prec); [|reflexivity].
    split; [reflexivity|]. left. reflexivity.
Qed.

End BinaryRound.

(** ** The order of dyadic numbers *)

Section Dyadic.

Lemma dle_at (c m1 e1 m2 e2 : Z) :
  c <= e1 -> c <= e2 ->
  (dle m1 e1 m2 e2 <-> m1 * 2 ^ (e1 - c) <= m2 * 2 ^ (e2 - c)).
Proof.
  intros H1 H2. unfold dle.
  set (mn := Z.min e1 e2).
  assert (c <= mn) as Hc by (unfold mn; lia).
  assert (mn <= e1 /\ mn <= e2) as [M1 M2] by (unfold mn; lia).
  pose proof (pow2_pos (mn - c) ltac:(lia)) as Pc.
  replace (e1 - c) with ((e1 - mn) + (mn - c)) by lia.
  replace (e2 - c) with ((e2 - mn) + (mn - c)) by lia.
  rewrite !Z.pow_add_r by lia. rewrite !Z.mul_assoc.
  split; intros H.
  - apply Z.mul_le_mono_nonneg_r; lia.
  - apply Z.mul_le_mono_pos_r in H; lia.
Qed.

Lemma dle_refl (m e : Z) : dle m e m e.
Proof. unfold dle. lia. Qed.

Lemma dle_trans (m1 e1 m2 e2 m3 e3 : Z) :
  dle m1 e1 m2 e2 -> dle m2 e2 m3 e3 -> dle m1 e1 m3 e3.
Proof.
  intros A B.
  set (c := Z.min e1 (Z.min e2 e3)).
  apply (dle_at c) in A; [|unfold c; lia|unfold c; lia].
  apply (dle_at c) in B; [|unfold c; lia|unfold c; lia].
  apply (dle_at c); [unfold c; lia|unfold c; lia|lia].
Qed.

Lemma dle_eq (c m1 e1 m2 e2 : Z) :
  c <= e1 -> c <= e2 ->
  m1 * 2 ^ (e1 - c) = m2 * 2 ^ (e2 - c) -> dle m1 e1 m2 e2.
Proof. intros H1 H2 E. apply (dle_at c); lia. Qed.

(** Multiplying both sides by the non-negative dyadic [k * 2^f]. *)
Lemma dle_mul (k f m1 e1 m2 e2 : Z) :
  0 <= k -> dle m1 e1 m2 e2 -> dle (m1 * k) (e1 + f) (m2 * k) (e2 + f).
Proof.
  intros K H. unfold dle in *.
  replace (Z.min (e1 + f) (e2 + f)) with (Z.min e1 e2 + f) by lia.
  replace (e1 + f - (Z.min e1 e2 + f)) with (e1 - Z.min e1 e2) by lia.
  replace (e2 + f - (Z.min e1 e2 + f)) with (e2 - Z.min e1 e2) by lia.
  nia.
Qed.

Lemma dle_pos (m1 e1 m2 e2 : Z) : 0 < m1 -> dle m1 e1 m2 e2 -> 0 < m2.
Proof.
  unfold dle. intros H D.
  pose proof (pow2_pos (e1 - Z.min e1 e2) ltac:(lia)).
  pose proof (pow2_pos (e2 - Z.min e1 e2) ltac:(lia)).
  nia.
Qed.

Lemma dle_0_l (e1 m2 e2 : Z) : 0 <= m2 -> dle 0 e1 m2 e2.
Proof.
  unfold dle. intros H.
  pose proof (pow2_pos (e2 - Z.min e1 e2) ltac:(lia)). nia.
Qed.

(** The larger number has the larger magnitude. *)
Lemma dle_magnitude (m1 e1 m2 e2 : Z) :
  0 < m1 -> dle m1 e1 m2 e2 -> Zdigits2 m1 + e1 <= Zdigits2 m2 + e2.
Proof.
  intros H1 D. pose proof (dle_pos _ _ _ _ H1 D) as H2.
  destruct (Zdigits2_bounds m1 H1) as (D1 & L1 & _).
  destruct (Zdigits2_bounds m2 H2) as (D2 & _ & U2).
  set (c := Z.min e1 e2). apply (dle_at c) in D; [|unfold c; lia|unfold c; lia].
  assert (c <= e1 /\ c <= e2) as [C1 C2] by (unfold c; lia).
  pose proof (pow2_pos (e1 - c) ltac:(lia)) as P1.
  pose proof (pow2_pos (e2 - c) ltac:(lia)) as P2.
  assert (2 ^ (Zdigits2 m1 - 1 + (e1 - c)) < 2 ^ (Zdigits2 m2 + (e2 - c))) as Lt.
  { rewrite !Z.pow_add_r by lia.
    apply Z.le_lt_trans with (m1 * 2 ^ (e1 - c));
      [apply Z.mul_le_mono_nonneg_r; lia|].
    apply Z.le_lt_trans with (m2 * 2 ^ (e2 - c)); [exact D|].
    apply Z.mul_lt_mono_pos_r; lia. }
  apply Z.pow_lt_mono_r_iff in Lt; lia.
Qed.

(** Truncation to an integer is monotone. *)
Lemma shiftl_at (c m e : Z) :
  c <= e -> c <= 0 -> Z.shiftl m e = (m * 2 ^ (e - c)) / 2 ^ (- c).
Proof.
  intros C1 C2.
  pose proof (pow2_pos (- c) ltac:(lia)) as Pc.
  destruct (Z_le_gt_dec 0 e) as [Ge|Lt].
  - rewrite Z.shiftl_mul_pow2 by lia.
    replace (e - c) with (e + - c) by lia.
    rewrite Z.pow_add_r, Z.mul_assoc, Z.div_mul by lia. reflexivity.
  - rewrite Z.shiftl_div_pow2 by lia.
    pose proof (pow2_pos (e - c) ltac:(lia)) as Pe.
    pose proof (pow2_pos (- e) ltac:(lia)) as Pn.
    replace (- c) with (- e + (e - c)) by lia.
    rewrite Z.pow_add_r by lia.
    rewrite Z.div_mul_cancel_r by lia. reflexivity.
Qed.

Lemma dle_shiftl (m1 e1 m2 e2 : Z) :
  dle m1 e1 m2 e2 -> Z.shiftl m1 e1 <= Z.shiftl m2 e2.
Proof.
  intros D. set (c := Z.min 0 (Z.min e1 e2)).
  apply (dle_at c) in D; [|unfold c; lia|unfold c; lia].
  rewrite (shiftl_at c m1 e1), (shiftl_at c m2 e2) by (unfold c; lia).
  apply Z.div_le_mono; [apply pow2_pos; unfold c; lia|exact D].
Qed.

End Dyadic.

(** ** Rounding to the binary64 grid is monotone *)

Section RoundMonotone.

Lemma to_grid_at (c m e E : Z) :
  c <= e -> c <= E -> to_grid m e E = rne (m * 2 ^ (e - c)) (E - c).
Proof.
  intros C1 C2. unfold to_grid. destruct (Z.ltb_spec e E) as [Lt|Ge].
  - replace (E - c) with ((E - e) + (e - c)) by lia.
    rewrite rne_scale by lia. reflexivity.
  - replace (e - c) with ((e - E) + (E - c)) by lia.
    rewrite Z.pow_add_r, Z.mul_assoc by lia.
    rewrite rne_exact by lia. reflexivity.
Qed.

Lemma to_grid_mono (E m1 e1 m2 e2 : Z) :
  dle m1 e1 m2 e2 -> to_grid m1 e1 E <= to_grid m2 e2 E.
Proof.
  intros D. set (c := Z.min E (Z.min e1 e2)).
  apply (dle_at c) in D; [|unfold c; lia|unfold c; lia].
  rewrite (to_grid_at c m1), (to_grid_at c m2) by (unfold c; lia).
  now apply rne_mono.
Qed.

Lemma to_grid_pow2 (p E : Z) : E <= p -> to_grid 1 p E = 2 ^ (p - E).
Proof.
  intros H. unfold to_grid. destruct (Z.ltb_spec p E); [lia|]. lia.
Qed.

(** The value of [rnd m e], scaled by [2^(-c)]. *)
Lemma rnd_at (c m e : Z) :
  c <= e -> c <= fexp64 (Zdigits2 m + e) ->
  fst (rnd m e) * 2 ^ (snd (rnd m e) - c) =
  to_grid m e (fexp64 (Zdigits2 m + e)) * 2 ^ (fexp64 (Zdigits2 m + e) - c).
Proof.
  intros C1 C2. unfold rnd, to_grid.
  destruct (Z.ltb_spec e (fexp64 (Zdigits2 m + e))) as [Lt|Ge]; cbn [fst snd].
  - reflexivity.
  - rewrite <- Z.mul_assoc, <- Z.pow_add_r by lia. do 2 f_equal. lia.
Qed.

Lemma rnd_exponent (m e : Z) :
  e <= snd (rnd m e) /\ fexp64 (Zdigits2 m + e) <= snd (rnd m e).
Proof.
  unfold rnd. destruct (Z.ltb_spec e (fexp64 (Zdigits2 m + e))); cbn [snd]; lia.
Qed.

Lemma rnd_mono (m1 e1 m2 e2 : Z) :
  0 < m1 -> dle m1 e1 m2 e2 ->
  dle (fst (rnd m1 e1)) (snd (rnd m1 e1)) (fst (rnd m2 e2)) (snd (rnd m2 e2)).
Proof.
  intros H1 D. pose proof (dle_pos _ _ _ _ H1 D) as H2.
  pose proof (dle_magnitude _ _ _ _ H1 D) as Mg.
  set (E1 := fexp64 (Zdigits2 m1 + e1)). set (E2 := fexp64 (Zdigits2 m2 + e2)).
  set (c := Z.min (Z.min e1 e2) (Z.min E1 E2)).
  assert (c <= e1 /\ c <= e2 /\ c <= E1 /\ c <= E2) as (C1 & C2 & C3 & C4)
    by (unfold c; lia).
  destruct (rnd_exponent m1 e1) as [X1 _]. destruct (rnd_exponent m2 e2) as [X2 _].
  apply (dle_at c); [lia|lia|].
  rewrite (rnd_at c m1 e1), (rnd_at c m2 e2) by assumption.
  fold E1 E2.
  assert (E1 <= E2) as LE by (unfold E1, E2; rewrite !fexp64_eq; lia).
  destruct (Z.eq_dec E1 E2) as [EQ|NE].
  - rewrite <- EQ.
    apply Z.mul_le_mono_nonneg_r; [pose proof (pow2_pos (E1 - c)); lia|].
    now apply to_grid_mono.
  - assert (E1 < E2) as LT by lia.
    destruct (Zdigits2_bounds m1 H1) as (D1 & _ & U1).
    destruct (Zdigits2_bounds m2 H2) as (D2 & L2 & _).
    set (g1 := Zdigits2 m1 + e1) in *. set (g2 := Zdigits2 m2 + e2) in *.
    assert (E2 = g2 - 53 /\ g1 - 53 <= E1) as [EE2 EE1]
      by (unfold E1, E2 in *; rewrite !fexp64_eq in *; lia).
    set (P := Z.max g1 E1).
    (* the rounding of the smaller number stays below 2^P *)
    assert (to_grid m1 e1 E1 <= 2 ^ (P - E1)) as Up.
    { rewrite <- to_grid_pow2 by (unfold P; lia). apply to_grid_mono.
      apply (dle_at c); [lia|unfold P; lia|]. rewrite Z.mul_1_l.
      pose proof (pow2_pos (e1 - c) ltac:(lia)).
      assert (2 ^ (Zdigits2 m1) * 2 ^ (e1 - c) <= 2 ^ (P - c)).
      { rewrite <- Z.pow_add_r by lia. apply Z.pow_le_mono_r; unfold P, g1; lia. }
      nia. }
    (* the rounding of the larger number stays above 2^(g2 - 1) *)
    assert (2 ^ (g2 - 1 - E2) <= to_grid m2 e2 E2) as Lo.
    { rewrite <- to_grid_pow2 by lia. apply to_grid_mono.
      apply (dle_at c); [lia|lia|]. rewrite Z.mul_1_l.
      replace (g2 - 1 - c) with ((Zdigits2 m2 - 1) + (e2 - c)) by (unfold g2; lia).
      rewrite Z.pow_add_r by lia.
      apply Z.mul_le_mono_nonneg_r; [pose proof (pow2_pos (e2 - c)); lia|lia]. }
    pose proof (pow2_pos (E1 - c) ltac:(lia)) as Q1.
    pose proof (pow2_pos (E2 - c) ltac:(lia)) as Q2.
    apply Z.le_trans with (2 ^ (P - E1) * 2 ^ (E1 - c)); [nia|].
    apply Z.le_trans with (2 ^ (g2 - 1 - E2) * 2 ^ (E2 - c)); [|nia].
    rewrite <- !Z.pow_add_r by (unfold P; lia).
    apply Z.pow_le_mono_r; unfold P; lia.
Qed.

End RoundMonotone.

(** ** Conversion, product and truncation are monotone on magnitudes *)

Section DoubleMonotone.

Lemma deq_refl (m e : Z) : deq m e m e.
Proof. split; apply dle_refl. Qed.

Lemma bra_sign (s : bool) (m e : Z) :
  0 < m -> has_sign s (binary_round_aux prec emax s m e loc_Exact).
Proof.
  intros Hm. pose proof (bra_spec s m e Hm) as B.
  destruct (binary_round_aux prec emax s m e loc_Exact); cbn; tauto.
Qed.

(** A finite result of [binary_round_aux] has the value of [rnd]. *)
Lemma bra_value (s : bool) (m e : Z) :
  0 < m ->
  let x := binary_round_aux prec emax s m e loc_Exact in
  is_finite x = true ->
  deq (fmant x) (fexpo x) (fst (rnd m e)) (snd (rnd m e)).
Proof.
  intros Hm x F. pose proof (bra_spec s m e Hm) as B. fold x in B.
  destruct x as [s'|s'| |s' M f]; try discriminate F; cbn [fmant fexpo].
  - destruct B as [_ Z0]. rewrite Z0. split; unfold dle; lia.
  - destruct B as [_ [E|[E T]]]; rewrite E; cbn [fst snd].
    + apply deq_refl.
    + rewrite T. split; apply (dle_eq (f - 1)); try lia;
        replace (f - (f - 1)) with 1 by lia;
        replace (f - 1 - (f - 1)) with 0 by lia; reflexivity.
Qed.

Lemma bra_mono (s1 s2 : bool) (m1 e1 m2 e2 : Z) :
  0 < m1 -> dle m1 e1 m2 e2 ->
  let x1 := binary_round_aux prec emax s1 m1 e1 loc_Exact in
  let x2 := binary_round_aux prec emax s2 m2 e2 loc_Exact in
  is_finite x1 = true -> is_finite x2 = true -> mag_le x1 x2.
Proof.
  intros H1 D x1 x2 F1 F2. pose proof (dle_pos _ _ _ _ H1 D) as H2.
  destruct (bra_value s1 m1 e1 H1 F1) as [A _].
  destruct (bra_value s2 m2 e2 H2 F2) as [_ B].
  unfold mag_le. fold x1 in A. fold x2 in B.
  eapply dle_trans; [exact A|].
  eapply dle_trans; [|exact B].
  now apply rnd_mono.
Qed.

Lemma iter_xO (d p : positive) : Zpos (Pos.iter xO p d) = Zpos p * 2 ^ Zpos d.
Proof.
  induction d as [|d IH] using Pos.peano_ind.
  - cbn [Pos.iter]. rewrite Pos2Z.inj_xO. change (2 ^ 1) with 2. lia.
  - rewrite Pos.iter_succ, Pos2Z.inj_xO, IH, Pos2Z.inj_succ, Z.pow_succ_r by lia. lia.
Qed.

(** [shl_align] changes the representation, not the value. *)
Lemma shl_align_value (mx : positive) (ex ex' : Z) :
  deq (Zpos (fst (shl_align mx ex ex'))) (snd (shl_align mx ex ex')) (Zpos mx) ex.
Proof.
  unfold shl_align. destruct (ex' - ex) as [|d|d] eqn:E; cbn [fst snd];
    try apply deq_refl.
  rewrite iter_xO.
  assert (ex = ex' + Zpos d) as -> by lia.
  split; apply (dle_eq ex'); try lia;
    replace (ex' - ex') with 0 by lia;
    replace (ex' + Zpos d - ex') with (Zpos d) by lia; lia.
Qed.

Lemma binary_round_sign (s : bool) (a : positive) (e : Z) :
  has_sign s (binary_round prec emax s a e).
Proof.
  unfold binary_round.
  destruct (shl_align a e (fexp prec emax (Zpos (digits2_pos a) + e))) as [mz ez].
  apply bra_sign. lia.
Qed.

(** Converting a larger positive integer gives a double of larger magnitude. *)
Lemma binary_round_mono (s1 s2 : bool) (a1 a2 : positive) :
  (a1 <= a2)%positive ->
  let x1 := binary_round prec emax s1 a1 0 in
  let x2 := binary_round prec emax s2 a2 0 in
  is_finite x1 = true -> is_finite x2 = true -> mag_le x1 x2.
Proof.
  intros Ha. unfold binary_round.
  pose proof (shl_align_value a1 0 (fexp prec emax (Zpos (digits2_pos a1) + 0))) as [V1 _].
  pose proof (shl_align_value a2 0 (fexp prec emax (Zpos (digits2_pos a2) + 0))) as [_ V2].
  destruct (shl_align a1 0 _) as [mz1 ez1]. destruct (shl_align a2 0 _) as [mz2 ez2].
  cbn [fst snd] in V1, V2.
  apply bra_mono; [lia|].
  eapply dle_trans; [exact V1|]. eapply dle_trans; [|exact V2].
  unfold dle. cbn. lia.
Qed.

Variables (mr : positive) (er : Z).
Let r : double := S754_finite false mr er.

Lemma fmul_sign (s : bool) (x : double) : has_sign s x -> has_sign s (fmul x r).
Proof.
  destruct x as [s'|s'| |s' M f]; unfold fmul, r; cbn [SFmul has_sign];
    intros H; subst; rewrite ?xorb_false_r; try reflexivity; try tauto.
  apply bra_sign. lia.
Qed.

(** Multiplying by the positive ratio keeps the order of magnitudes. *)
Lemma fmul_mono (x1 x2 : double) :
  is_finite x1 = true -> is_finite x2 = true -> mag_le x1 x2 ->
  is_finite (fmul x1 r) = true -> is_finite (fmul x2 r) = true ->
  mag_le (fmul x1 r) (fmul x2 r).
Proof.
  intros F1 F2 D G1 G2.
  destruct x1 as [s1|s1| |s1 M1 f1]; try discriminate F1.
  - (* the smaller magnitude is zero *)
    unfold mag_le. cbn [fmul SFmul r fmant fexpo]. apply dle_0_l.
    destruct (fmul x2 r); cbn; lia.
  - destruct x2 as [s2|s2| |s2 M2 f2]; try discriminate F2.
    + unfold mag_le in D. cbn [fmant fexpo] in D.
      apply dle_pos in D; lia.
    + unfold mag_le in D. cbn [fmant fexpo] in D.
      cbn [fmul SFmul r] in *.
      apply bra_mono; try assumption; [lia|].
      rewrite !Pos2Z.inj_mul. apply dle_mul; [lia|exact D].
Qed.

(** The integer part of a finite double. *)
Lemma trunc_double_finite (x : double) (s : bool) :
  is_finite x = true -> has_sign s x ->
  trunc_double x = Some (cond_Zopp s (Z.shiftl (fmant x) (fexpo x))).
Proof.
  destruct x as [s'|s'| |s' M f]; try discriminate; cbn; intros _ ->.
  - now destruct s.
  - reflexivity.
Qed.

Lemma shiftl_nonneg (x : double) : 0 <= Z.shiftl (fmant x) (fexpo x).
Proof. apply Z.shiftl_nonneg. destruct x; cbn; lia. Qed.

End DoubleMonotone.

(** ** Monotonicity of the conversion formula *)

Section FormulaMonotone.

Variables (mr : positive) (er : Z).
Let r : double := S754_finite false mr er.

Lemma fmul_finite_inv (x : double) :
  is_finite (fmul x r) = true -> is_finite x = true.
Proof. destruct x as [s|s| |s M f]; cbn; congruence. Qed.

Lemma trunc_some_finite (x : double) (z : Z) :
  trunc_double x = Some z -> is_finite x = true.
Proof. destruct x; cbn; congruence. Qed.

(** The product for a positive or a negative tick difference of absolute
    value [a]: its integer part is the shifted mantissa, with the sign. *)
Lemma scaled_trunc (s : bool) (a : positive) (z : Z) :
  let y := fmul (binary_round prec emax s a 0) r in
  trunc_double y = Some z ->
  is_finite y = true /\ z = cond_Zopp s (Z.shiftl (fmant y) (fexpo y)).
Proof.
  intros y T. pose proof (trunc_some_finite y z T) as F. split; [exact F|].
  assert (has_sign s y) as S by (apply fmul_sign, binary_round_sign).
  rewrite (trunc_double_finite y s F S) in T. congruence.
Qed.

Lemma scaled_mono (s1 s2 : bool) (a1 a2 : positive) :
  (a1 <= a2)%positive ->
  let y1 := fmul (binary_round prec emax s1 a1 0) r in
  let y2 := fmul (binary_round prec emax s2 a2 0) r in
  is_finite y1 = true -> is_finite y2 = true ->
  Z.shiftl (fmant y1) (fexpo y1) <= Z.shiftl (fmant y2) (fexpo y2).
Proof.
  intros Ha y1 y2 F1 F2. apply dle_shiftl.
  pose proof (fmul_finite_inv _ F1) as G1. pose proof (fmul_finite_inv _ F2) as G2.
  apply fmul_mono; try assumption.
  now apply binary_round_mono.
Qed.

(** The integer part of [(double)d * r] grows with [d]. *)
Lemma product_trunc_mono (d1 d2 z1 z2 : Z) :
  d1 <= d2 ->
  trunc_double (fmul (of_int64 d1) r) = Some z1 ->
  trunc_double (fmul (of_int64 d2) r) = Some z2 ->
  z1 <= z2.
Proof.
  intros Hd T1 T2. unfold of_int64, binary_normalize in T1, T2.
  destruct d1 as [|a1|a1], d2 as [|a2|a2]; try lia.
  - cbn in T1, T2. congruence.
  - apply scaled_trunc in T2. destruct T2 as [_ ->].
    cbn in T1. injection T1 as <-. cbn [cond_Zopp]. apply shiftl_nonneg.
  - apply scaled_trunc in T1. apply scaled_trunc in T2.
    destruct T1 as [F1 ->], T2 as [F2 ->]. cbn [cond_Zopp].
    apply scaled_mono; assumption || lia.
  - apply scaled_trunc in T1. destruct T1 as [_ ->].
    cbn in T2. injection T2 as <-. cbn [cond_Zopp].
    pose proof (shiftl_nonneg (fmul (binary_round prec emax true a1 0) r)). lia.
  - apply scaled_trunc in T1. apply scaled_trunc in T2.
    destruct T1 as [_ ->], T2 as [_ ->]. cbn [cond_Zopp].
    pose proof (shiftl_nonneg (fmul (binary_round prec emax true a1 0) r)).
    pose proof (shiftl_nonneg (fmul (binary_round prec emax false a2 0) r)). lia.
  - apply scaled_trunc in T1. apply scaled_trunc in T2.
    destruct T1 as [F1 ->], T2 as [F2 ->]. cbn [cond_Zopp].
    assert (Z.shiftl (fmant (fmul (binary_round prec emax true a2 0) r))
                     (fexpo (fmul (binary_round prec emax true a2 0) r))
            <= Z.shiftl (fmant (fmul (binary_round prec emax true a1 0) r))
                        (fexpo (fmul (binary_round prec emax true a1 0) r))); [|lia].
    apply scaled_mono; assumption || lia.
Qed.

End FormulaMonotone.

(** Where nothing overflows, [linear_ns] is the exact sum. *)
Lemma linear_ns_exact (o : TSCNS) (tick z : Z) :
  in_int64 (tick - base_tsc_ o) ->
  trunc_double (fmul (of_int64 (tick - base_tsc_ o)) (ns_per_tsc_ o)) = Some z ->
  in_int64 z -> in_int64 (base_ns_ o + z) ->
  linear_ns o tick = base_ns_ o + z.
Proof.
  intros Rd T Rz Rs. unfold linear_ns, sub64, add64.
  rewrite (wrap64_id _ Rd). unfold to_int64. rewrite T.
  unfold in_int64 in Rz.
  destruct (Z.leb_spec INT64_MIN z), (Z.leb_spec z INT64_MAX); try lia.
  cbn [andb]. now apply wrap64_id.
Qed.

Lemma positive_no_overflow_finite (o : TSCNS) (tick : Z) :
  is_positive (ns_per_tsc_ o) = true -> no_overflow o tick ->
  exists mr er, ns_per_tsc_ o = S754_finite false mr er.
Proof.
  intros P (_ & z & T & _).
  destruct (ns_per_tsc_ o) as [s|[|]| |[|] mr er]; try discriminate P.
  - exfalso. unfold of_int64, binary_normalize in T.
    destruct (tick - base_tsc_ o) as [|a|a].
    + discriminate T.
    + pose proof (binary_round_sign false a 0) as S.
      destruct (binary_round prec emax false a 0); cbn in S; try tauto; discriminate T.
    + pose proof (binary_round_sign true a 0) as S.
      destruct (binary_round prec emax true a 0); cbn in S; try tauto; discriminate T.
  - eauto.
Qed.

Lemma linear_ns_mono (o : TSCNS) (tick1 tick2 : Z) :
  is_positive (ns_per_tsc_ o) = true ->
  no_overflow o tick1 -> no_overflow o tick2 ->
  tick1 <= tick2 ->
  linear_ns o tick1 <= linear_ns o tick2.
Proof.
  intros P N1 N2 Ht.
  destruct (positive_no_overflow_finite o tick1 P N1) as (mr & er & Er).
  destruct N1 as (Rd1 & z1 & T1 & Rz1 & Rs1). destruct N2 as (Rd2 & z2 & T2 & Rz2 & Rs2).
  rewrite (linear_ns_exact o tick1 z1), (linear_ns_exact o tick2 z2) by assumption.
  rewrite Er in T1, T2.
  pose proof (product_trunc_mono mr er (tick1 - base_tsc_ o) (tick2 - base_tsc_ o)
                                 z1 z2 ltac:(lia) T1 T2).
  lia.
Qed.

(** C2, as the code has it.  For a fixed snapshot with [ns_per_tsc_ > 0] and
    ticks [tick1 <= tick2] at which the formula overflows nowhere, the value
    [base_ns_ + (int64)((tick - base_tsc_) * ns_per_tsc_)] that the loop body
    of [tsc2ns] computes for [tick1] is at most the one it computes for
    [tick2]. *)
Theorem tsc2ns_formula_monotone (m : Machine) (tick1 tick2 : Z) :
  is_positive (ns_per_tsc_ (self m)) = true ->
  no_overflow (self m) tick1 -> no_overflow (self m) tick2 ->
  tick1 <= tick2 ->
  exists before1 ns1 after1 before2 ns2 after2 : Z,
    tsc2ns_body tick1 m = Some ((before1, ns1, after1), m) /\
    tsc2ns_body tick2 m = Some ((before2, ns2, after2), m) /\
    ns1 = linear_ns (self m) tick1 /\ ns2 = linear_ns (self m) tick2 /\
    ns1 <= ns2.
Proof.
  intros P N1 N2 Ht.
  do 6 eexists. rewrite !tsc2ns_body_run.
  split; [reflexivity|]. split; [reflexivity|]. split; [reflexivity|].
  split; [reflexivity|]. now apply linear_ns_mono.
Qed.

Lemma tsc2ns_formula_monotone_witness :
  exists before1 ns1 after1 before2 ns2 after2 : Z,
    tsc2ns_body 1000 machine_near = Some ((before1, ns1, after1), machine_near) /\
    tsc2ns_body 2000 machine_near = Some ((before2, ns2, after2), machine_near) /\
    ns1 = 1000 /\ ns2 = 2000 /\ ns1 <= ns2.
Proof.
  assert (P : is_positive (ns_per_tsc_ (self machine_near)) = true) by reflexivity.
  assert (N1 : no_overflow (self machine_near) 1000).
  { split; [vm_compute; split; discriminate|]. exists 1000.
    split; [vm_compute; reflexivity|]. split; vm_compute; split; discriminate. }
  assert (N2 : no_overflow (self machine_near) 2000).
  { split; [vm_compute; split; discriminate|]. exists 2000.
    split; [vm_compute; reflexivity|]. split; vm_compute; split; discriminate. }
  destruct (tsc2ns_formula_monotone machine_near 1000 2000 P N1 N2 ltac:(lia))
    as (b1 & n1 & a1 & b2 & n2 & a2 & B1 & B2 & E1 & E2 & L).
  exists b1, n1, a1, b2, n2, a2.
  split; [exact B1|]. split; [exact B2|].
  split; [rewrite E1; vm_compute; reflexivity|].
  split; [rewrite E2; vm_compute; reflexivity|exact L].
Defined.

(** C2 does not hold as stated.  (1) On a snapshot whose [base_ns_] is the
    largest [int64_t], the formula wraps between tick 0 and tick 1, and
    [tsc2ns] (its uninitialised local holding the value of the formula)
    returns [INT64_MAX] for tick 0 and [INT64_MIN] for tick 1.  (2) On any
    stable snapshot the two calls return what their uninitialised local
    holds, e.g. 5 for tick 0 and 3 for tick 1. *)
Lemma tsc2ns_not_monotone :
  is_positive (ns_per_tsc_ snapshot_late) = true /\
  (linear_ns snapshot_late 0 = INT64_MAX /\ linear_ns snapshot_late 1 = INT64_MIN /\
   tsc2ns 1 (linear_ns snapshot_late 0) 0 machine_late = Some (INT64_MAX, machine_late) /\
   tsc2ns 1 (linear_ns snapshot_late 1) 1 machine_late = Some (INT64_MIN, machine_late) /\
   INT64_MIN < INT64_MAX) /\
  (tsc2ns 1 5 0 machine_near = Some (5, machine_near) /\
   tsc2ns 1 3 1 machine_near = Some (3, machine_near)).
Proof.
  assert (E0 : linear_ns snapshot_late 0 = INT64_MAX) by (vm_compute; reflexivity).
  assert (E1 : linear_ns snapshot_late 1 = INT64_MIN) by (vm_compute; reflexivity).
  assert (St : stable (self machine_late)) by (split; [cbn; lia|reflexivity]).
  assert (Sn : stable (self machine_near)) by (split; [cbn; lia|reflexivity]).
  split; [reflexivity|]. split.
  - split; [exact E0|]. split; [exact E1|]. rewrite E0, E1.
    split; [now apply tsc2ns_stable|]. split; [now apply tsc2ns_stable|].
    vm_compute. reflexivity.
  - split; now apply tsc2ns_stable.
Qed.

(** ** Continuity across a calibration *)

Lemma of_int64_0 : of_int64 0 = S754_zero false.
Proof. reflexivity. Qed.

(** At its own base tick a snapshot with a finite ratio yields its [base_ns_]. *)
Lemma linear_ns_at_base (o : TSCNS) :
  is_finite (ns_per_tsc_ o) = true -> in_int64 (base_tsc_ o) ->
  linear_ns o (base_tsc_ o) = wrap64 (base_ns_ o).
Proof.
  intros F R. unfold linear_ns, sub64. rewrite Z.sub_diag.
  replace (wrap64 0) with 0 by reflexivity. rewrite of_int64_0.
  unfold add64. f_equal.
  destruct (ns_per_tsc_ o) as [s|s| |s mr er]; try discriminate F;
    cbn; lia.
Qed.

Lemma sync_of_tsc_range (c : Clocks) : in_int64 (fst (sync_of c)).
Proof.
  destruct (sync_of_best c) as (best & _ & E & _). rewrite E. cbn [fst].
  pose proof (wrap64_range (tsc_at c best + tsc_at c (best - 1))) as R.
  unfold add64. unfold in_int64, INT64_MIN, INT64_MAX in *.
  rewrite Z.shiftr_div_pow2 by lia.
  change (2 ^ 1) with 2.
  split.
  - apply Z.div_le_lower_bound; lia.
  - apply Z.div_le_upper_bound; lia.
Qed.




(** * Further properties of the code *)

(** ** The fast path of [calibrate] *)

(** X1.  When the counter has not reached [next_calibrate_tsc_], [calibrate]
    returns at once, whatever the fuel and whatever the sequence number: it
    consumes one counter reading, takes no wall-clock sample, stores nothing
    and leaves the object as it is. *)
Theorem calibrate_fast_path_is_noop (fuel : nat) (ns_uninit : Z) (m : Machine) :
  tsc_at (env m) 0 < next_calibrate_tsc_ (self m) ->
  exists m',
    calibrate fuel ns_uninit m = Some (tt, m') /\
    self m' = self m /\ log m' = log m /\
    tsc_pos (env m') = S (tsc_pos (env m)) /\ sys_pos (env m') = sys_pos (env m).
Proof.
  intros F. eexists. split.
  - apply calibrate_fast_run. unfold slow_path. lia.
  - cbn. auto.
Qed.

Lemma calibrate_fast_path_is_noop_witness :
  exists m', calibrate 0 0 machine_not_due = Some (tt, m') /\
             self m' = snapshot_not_due /\ log m' = [].
Proof.
  destruct (calibrate_fast_path_is_noop 0 0 machine_not_due) as (m' & C & S & L & _).
  - vm_compute. reflexivity.
  - exists m'. split; [exact C|]. split; [exact S|exact L].
Defined.

(** ** The reader loop *)

Lemma tsc2ns_loop_unchanged (fuel : nat) (tsc : Z) (m m' : Machine) :
  tsc2ns_loop fuel tsc m = Some (tt, m') -> m' = m.
Proof.
  induction fuel as [|fuel IH]; [discriminate|].
  cbn [tsc2ns_loop]. unfold bind at 1. rewrite tsc2ns_body_run. cbn beta iota.
  destruct (Z.land (param_seq_ (self m)) (2 ^ 32 - 2) =? param_seq_ (self m)).
  - unfold ret. congruence.
  - exact IH.
Qed.

Lemma tsc2ns_unchanged (fuel : nat) (ns_uninit tsc v : Z) (m m' : Machine) :
  tsc2ns fuel ns_uninit tsc m = Some (v, m') -> v = ns_uninit /\ m' = m.
Proof.
  unfold tsc2ns, bind. destruct (tsc2ns_loop fuel tsc m) as [[[] m1]|] eqn:E; [|discriminate].
  apply tsc2ns_loop_unchanged in E. unfold ret. intros H. injection H as <- <-. auto.
Qed.

(** X2.  [tsc2ns] returns exactly when its loop is given a pass and the
    sequence number is even: while a commit is in progress (odd sequence
    number) a reader is never handed a value, however long it spins.  When it
    returns it has not modified anything. *)
Theorem tsc2ns_returns_iff_even (fuel : nat) (ns_uninit tsc : Z) (m : Machine) :
  0 <= param_seq_ (self m) < 2 ^ 32 ->
  ((exists v m', tsc2ns fuel ns_uninit tsc m = Some (v, m')) <->
   ((0 < fuel)%nat /\ Z.even (param_seq_ (self m)) = true)) /\
  (forall v m', tsc2ns fuel ns_uninit tsc m = Some (v, m') -> m' = m).
Proof.
  intros R. split; [split|].
  - intros (v & m' & E). destruct fuel as [|fuel]; [discriminate E|].
    split; [lia|].
    destruct (Z.even (param_seq_ (self m))) eqn:Ev; [reflexivity|].
    unfold tsc2ns, bind in E.
    rewrite tsc2ns_loop_odd in E; [discriminate E|].
    now rewrite <- Z.negb_even, Ev.
  - intros [F Ev]. destruct fuel as [|fuel]; [lia|].
    exists ns_uninit, m. apply tsc2ns_stable. split; assumption.
  - intros v m' E. now apply tsc2ns_unchanged in E.
Qed.

(** A commit in progress on the 1 GHz snapshot: a thousand passes are not
    enough. *)
Lemma tsc2ns_returns_iff_even_witness :
  tsc2ns 1000 0 1000 (mkMachine (set_param_seq 1 snapshot_1ghz) clocks_near []) = None /\
  exists v, tsc2ns 1 0 1000 machine_near = Some (v, machine_near).
Proof.
  split.
  - destruct (tsc2ns_returns_iff_even 1000 0 1000
                (mkMachine (set_param_seq 1 snapshot_1ghz) clocks_near []))
      as [[W _] _]; [cbn; lia|].
    destruct (tsc2ns 1000 0 1000 (mkMachine (set_param_seq 1 snapshot_1ghz) clocks_near []))
      as [[v m']|]; [|reflexivity].
    destruct W as [_ Ev]; [eauto|]. discriminate Ev.
  - destruct (tsc2ns_returns_iff_even 1 0 1000 machine_near) as [[_ W] U]; [cbn; lia|].
    destruct W as (v & m' & E); [split; [lia|reflexivity]|].
    exists v. rewrite E. f_equal. f_equal. now apply U in E.
Defined.

(** ** [init] and a wall clock that does not advance *)



(** ** [syncTime]: the tick returned *)

(** X4.  The tick [syncTime] returns is an [int64_t]; when the sum of the two
    counter values of the selected pair does not overflow, it lies between
    them. *)
Theorem syncTime_tick_within_pair (m : Machine) :
  exists (best : nat) (tsc_out : Z),
    (1 <= best <= 3)%nat /\
    syncTime m = Some ((tsc_out, sys_at (env m) (best - 1)),
                       mkMachine (self m) (advance 4 3 (env m)) (log m)) /\
    in_int64 tsc_out /\
    (in_int64 (tsc_at (env m) best + tsc_at (env m) (best - 1)) ->
     Z.min (tsc_at (env m) (best - 1)) (tsc_at (env m) best) <= tsc_out
     <= Z.max (tsc_at (env m) (best - 1)) (tsc_at (env m) best)).
Proof.
  destruct (sync_of_best (env m)) as (best & Hb & E & _).
  pose proof (sync_of_tsc_range (env m)) as Rg. rewrite E in Rg. cbn [fst] in Rg.
  exists best. eexists. split; [exact Hb|].
  rewrite syncTime_run, E. split; [reflexivity|]. split; [exact Rg|].
  intros Sum. rewrite shiftr1_average by exact Sum.
  pose proof (Z.div_mod (tsc_at (env m) best + tsc_at (env m) (best - 1)) 2 ltac:(lia)).
  pose proof (Z.mod_pos_bound (tsc_at (env m) best + tsc_at (env m) (best - 1)) 2 ltac:(lia)).
  lia.
Qed.

Lemma syncTime_tick_within_pair_witness :
  exists tsc_out m', syncTime machine_near = Some ((tsc_out, 2900), m') /\
                     3000 <= tsc_out <= 3010.
Proof.
  destruct (syncTime_tick_within_pair machine_near) as (best & t & Hb & S & _ & B).
  assert (E : sync_of (env machine_near) = (3005, 2900)) by (vm_compute; reflexivity).
  rewrite syncTime_run, E in S. injection S as Et En.
  assert (best = 1)%nat as ->.
  { assert (best = 1 \/ best = 2 \/ best = 3)%nat as [-> | [-> | ->]] by lia;
      [reflexivity| |]; vm_compute in En; discriminate En. }
  exists t. eexists. split.
  - rewrite syncTime_run, E, Et. reflexivity.
  - assert (A1 : tsc_at (env machine_near) 1 = 3010) by (vm_compute; reflexivity).
    assert (A0 : tsc_at (env machine_near) 0 = 3000) by (vm_compute; reflexivity).
    cbn [Nat.sub] in B. rewrite A1, A0 in B.
    assert (Sum : in_int64 (3010 + 3000)) by (vm_compute; split; discriminate).
    specialize (B Sum). lia.
Defined.

(** ** The formula at its base and under a degenerate ratio *)

(** X5.  With a finite ratio, the formula of [tsc2ns] maps [base_tsc_] to
    [base_ns_]. *)
Theorem formula_maps_base_to_base (m : Machine) :
  is_finite (ns_per_tsc_ (self m)) = true ->
  in_int64 (base_tsc_ (self m)) -> in_int64 (base_ns_ (self m)) ->
  exists before_seq after_seq,
    tsc2ns_body (base_tsc_ (self m)) m
    = Some ((before_seq, base_ns_ (self m), after_seq), m).
Proof.
  intros F Rt Rn. rewrite tsc2ns_body_run. do 2 eexists.
  rewrite linear_ns_at_base by assumption. rewrite wrap64_id by exact Rn. reflexivity.
Qed.

Lemma formula_maps_base_to_base_witness :
  exists before_seq after_seq,
    tsc2ns_body 3015 machine_same_tick = Some ((before_seq, 3000, after_seq), machine_same_tick).
Proof.
  apply (formula_maps_base_to_base machine_same_tick).
  - reflexivity.
  - vm_compute. split; discriminate.
  - vm_compute. split; discriminate.
Defined.

Lemma fmul_not_finite_r (x r : double) : is_finite r = false -> is_finite (fmul x r) = false.
Proof. destruct r as [s|s| |s mr er]; try discriminate; destruct x as [t|t| |t mx ex]; reflexivity. Qed.

Lemma fmul_not_finite_l (x r : double) : is_finite r = false -> is_finite (fmul r x) = false.
Proof. destruct r as [s|s| |s mr er]; try discriminate; destruct x as [t|t| |t mx ex]; reflexivity. Qed.

Lemma to_int64_not_finite (x : double) : is_finite x = false -> to_int64 x = INT64_MIN.
Proof. destruct x; try discriminate; reflexivity. Qed.

(** X6.  Once [ns_per_tsc_] is an infinity or NaN, the formula of [tsc2ns]
    no longer depends on the tick: the conversion of the product yields
    [INT64_MIN] and every tick is mapped to [base_ns_ + INT64_MIN], wrapped. *)
Theorem formula_constant_under_degenerate_ratio (m : Machine) (tsc : Z) :
  is_finite (ns_per_tsc_ (self m)) = false ->
  exists before_seq after_seq,
    tsc2ns_body tsc m
    = Some ((before_seq, add64 (base_ns_ (self m)) INT64_MIN, after_seq), m).
Proof.
  intros F. rewrite tsc2ns_body_run. do 2 eexists.
  unfold linear_ns. rewrite to_int64_not_finite; [reflexivity|].
  now apply fmul_not_finite_r.
Qed.

Lemma formula_constant_under_degenerate_ratio_witness :
  exists before_seq after_seq,
    tsc2ns_body 123456
      (mkMachine (set_ns_per_tsc (S754_infinity false) snapshot_1ghz) clocks_near [])
    = Some ((before_seq, INT64_MIN, after_seq),
            mkMachine (set_ns_per_tsc (S754_infinity false) snapshot_1ghz) clocks_near []).
Proof.
  apply (formula_constant_under_degenerate_ratio
           (mkMachine (set_ns_per_tsc (S754_infinity false) snapshot_1ghz) clocks_near [])
           123456).
  reflexivity.
Defined.

(** ** What the member functions keep *)

Lemma wait_until_self (fuel : nat) :
  forall (expire_ns : Z) (m m' : Machine),
    wait_until fuel expire_ns m = Some (tt, m') -> self m' = self m /\ log m' = log m.
Proof.
  induction fuel as [|fuel IH]; intros expire_ns m m'; [discriminate|].
  cbn [wait_until]. unfold bind at 1. rewrite rdsysns_run.
  destruct (sys_at (env m) 0 <? expire_ns).
  - intros H. apply IH in H. exact H.
  - unfold ret. intros H. injection H as <-. auto.
Qed.

(** Whatever [init] commits, it is a commit of its first synchronized pair
    with a zero error. *)
Lemma init_result (fuel : nat) (a b : Z) (m m' : Machine) :
  init fuel a b m = Some (tt, m') ->
  exists r : double,
    self m' = committed (set_calibrate_interval_ns b (self m))
                        (fst (sync_of (env m))) (snd (sync_of (env m))) 0 r.
Proof.
  unfold init, bind at 1, store. unfold bind at 1. rewrite syncTime_run.
  cbn [self env log]. destruct (sync_of (env m)) as [base_tsc base_ns]. cbn [fst snd].
  unfold bind at 1.
  destruct (wait_until fuel (add64 base_ns a) _) as [[[] m1]|] eqn:W; [|discriminate].
  apply wait_until_self in W. destruct W as [Ws Wl]. cbn [self log] in Ws, Wl.
  unfold bind at 1. rewrite syncTime_run.
  destruct (sync_of (env m1)) as [delayed_tsc delayed_ns].
  rewrite saveParam_run. cbn [self env log]. rewrite Ws.
  intros H. injection H as <-. cbn [self]. eauto.
Qed.

Lemma committed_well_kept (o : TSCNS) (base_tsc sys_ns err : Z) (r : double) :
  stable o -> in_int64 base_tsc -> -1000000 <= err <= 1000000 ->
  well_kept (committed o base_tsc sys_ns err r).
Proof.
  intros [R E] Rt Re. unfold well_kept, committed, stable. cbn.
  split; [split; [apply u32_range|now apply u32_even_plus2]|].
  split; [exact Re|]. split; [exact Rt|]. split; apply wrap64_range.
Qed.

Lemma clamp_ns_err_range (raw : Z) : -1000000 <= clamp_ns_err raw <= 1000000.
Proof. rewrite clamp_ns_err_spec. lia. Qed.

(** What [calibrate] leaves of a stable object: the object itself on the fast
    path, a commit of its sample on the slow path. *)
Lemma calibrate_result (fuel : nat) (ns_uninit : Z) (m m' : Machine) :
  stable (self m) ->
  calibrate fuel ns_uninit m = Some (tt, m') ->
  self m' = self m \/
  exists ns err,
    -1000000 <= err <= 1000000 /\
    self m' = committed (self m) (fst (calibrate_sample m)) ns err
                        (new_ratio (self m) (fst (calibrate_sample m)) err).
Proof.
  intros St C.
  destruct (Z_lt_le_dec (tsc_at (env m) 0) (next_calibrate_tsc_ (self m))) as [F|S].
  - left. rewrite calibrate_fast_run in C by (unfold slow_path; lia).
    injection C as <-. reflexivity.
  - right. destruct fuel as [|fuel].
    + exfalso. unfold calibrate, bind at 1 in C. rewrite rdtsc_run in C.
      unfold bind at 1, load in C. cbn [self] in C.
      destruct (Z.ltb_spec (tsc_at (env m) 0) (next_calibrate_tsc_ (self m))); [lia|].
      unfold bind at 1 in C. rewrite syncTime_run in C.
      destruct (sync_of _) as [tsc ns]. discriminate C.
    + rewrite calibrate_slow_run in C by assumption.
      destruct (calibrate_sample m) as [tsc ns]. cbn zeta in C. injection C as <-.
      cbn [self fst]. exists ns, (clamp_ns_err (sub64 ns_uninit ns)).
      split; [apply clamp_ns_err_range|reflexivity].
Qed.

Lemma perform_reader_self (c : call) (m m' : Machine) :
  match c with Call_init _ _ _ | Call_calibrate _ _ => False | _ => True end ->
  perform c m = Some (tt, m') -> self m' = self m.
Proof.
  destruct c; cbn [perform]; intros Hc H; try contradiction.
  - unfold bind in H. destruct (tsc2ns fuel ns_uninit tsc m) as [[v m1]|] eqn:E; [|discriminate].
    apply tsc2ns_unchanged in E. destruct E as [_ ->]. unfold ret in H. congruence.
  - unfold rdns, bind at 1 in H. unfold bind at 1 in H. rewrite rdtsc_run in H.
    destruct (tsc2ns fuel ns_uninit _ _) as [[v m1]|] eqn:E; [|discriminate].
    apply tsc2ns_unchanged in E. destruct E as [_ ->]. unfold ret in H.
    injection H as <-. reflexivity.
  - unfold bind in H. rewrite rdtsc_run in H. unfold ret in H. injection H as <-. reflexivity.
  - unfold bind in H. rewrite rdsysns_run in H. unfold ret in H. injection H as <-. reflexivity.
  - unfold getTscGhz, bind, load, ret in H. injection H as <-. reflexivity.
  - unfold bind in H. rewrite syncTime_run in H. unfold ret in H. injection H as <-. reflexivity.
Qed.

Lemma perform_well_kept (c : call) (m m' : Machine) :
  well_kept (self m) -> perform c m = Some (tt, m') -> well_kept (self m').
Proof.
  intros W H. destruct c.
  - cbn [perform] in H. apply init_result in H. destruct H as [r ->].
    apply committed_well_kept.
    + exact (proj1 W).
    + apply sync_of_tsc_range.
    + lia.
  - cbn [perform] in H. apply calibrate_result in H; [|exact (proj1 W)].
    destruct H as [->|(ns & err & Re & ->)]; [exact W|].
    apply committed_well_kept; [exact (proj1 W)|apply sync_of_tsc_range|exact Re].
  - apply perform_reader_self in H; [rewrite H; exact W|exact I].
  - apply perform_reader_self in H; [rewrite H; exact W|exact I].
  - apply perform_reader_self in H; [rewrite H; exact W|exact I].
  - apply perform_reader_self in H; [rewrite H; exact W|exact I].
  - apply perform_reader_self in H; [rewrite H; exact W|exact I].
  - apply perform_reader_self in H; [rewrite H; exact W|exact I].
Qed.

(** X7.  Starting from an object with an even sequence number, a stored
    error within the clamp and [int64_t] contents (such as a zero-initialised
    one), every sequence of member-function calls that returns leaves such an
    object: the sequence number is stable again, [base_ns_err_] is within
    [-1,000,000, +1,000,000], and [base_tsc_], [base_ns_] and
    [next_calibrate_tsc_] are within [int64_t]. *)
Theorem calls_keep_object_well_kept (cs : list call) :
  forall m m' : Machine,
    well_kept (self m) -> perform_all cs m = Some (tt, m') -> well_kept (self m').
Proof.
  induction cs as [|c cs IH]; intros m m' W H.
  - cbn in H. unfold ret in H. injection H as <-. exact W.
  - cbn [perform_all] in H. unfold bind in H.
    destruct (perform c m) as [[[] m1]|] eqn:E; [|discriminate].
    apply (IH m1 m'); [|exact H]. now apply (perform_well_kept c m m1).
Qed.

Lemma calls_keep_object_well_kept_witness :
  exists m',
    perform_all [Call_init 10 40 3000000000; Call_calibrate 1 0; Call_rdns 1 0;
                 Call_getTscGhz] machine_boot = Some (tt, m') /\
    well_kept (self m').
Proof.
  assert (W : well_kept (self machine_boot)).
  { unfold well_kept, stable. cbn. repeat split; try lia; vm_compute; discriminate. }
  destruct (perform_all [Call_init 10 40 3000000000; Call_calibrate 1 0; Call_rdns 1 0;
                         Call_getTscGhz] machine_boot) as [[[] m']|] eqn:E.
  - exists m'. split; [reflexivity|].
    exact (calls_keep_object_well_kept _ machine_boot m' W E).
  - exfalso. vm_compute in E. discriminate E.
Defined.

Lemma perform_returns (c : call) (m : Machine) :
  well_kept (self m) -> fuelled c -> is_init c = false ->
  exists m', perform c m = Some (tt, m') /\
             calibrate_interval_ns_ (self m') = calibrate_interval_ns_ (self m).
Proof.
  intros W F Ni. destruct W as [St _].
  destruct c; cbn [fuelled is_init perform] in *; try discriminate Ni.
  - destruct fuel as [|fuel]; [lia|].
    destruct (Z_lt_le_dec (tsc_at (env m) 0) (next_calibrate_tsc_ (self m))) as [Fa|Sl].
    + eexists. split; [apply calibrate_fast_run; unfold slow_path; lia|reflexivity].
    + rewrite calibrate_slow_run by assumption.
      destruct (calibrate_sample m) as [tsc ns]. cbn zeta. eexists. split; reflexivity.
  - destruct fuel as [|fuel]; [lia|].
    unfold bind. rewrite tsc2ns_stable by exact St. eexists. split; reflexivity.
  - destruct fuel as [|fuel]; [lia|].
    unfold rdns, bind at 1. unfold bind at 1. rewrite rdtsc_run.
    rewrite tsc2ns_stable by exact St. eexists. split; reflexivity.
  - unfold bind. rewrite rdtsc_run. eexists. split; reflexivity.
  - unfold bind. rewrite rdsysns_run. eexists. split; reflexivity.
  - eexists. split; reflexivity.
  - unfold bind. rewrite syncTime_run. eexists. split; reflexivity.
Qed.

(** X8.  On such an object every sequence of calls other than [init] returns
    as soon as each of its loops is given one pass: [calibrate], [tsc2ns] and
    [rdns] never spin.  None of these calls changes
    [calibrate_interval_ns_]. *)
Theorem calls_other_than_init_return (cs : list call) :
  forall m : Machine,
    well_kept (self m) ->
    Forall fuelled cs -> forallb (fun c => negb (is_init c)) cs = true ->
    exists m',
      perform_all cs m = Some (tt, m') /\
      calibrate_interval_ns_ (self m') = calibrate_interval_ns_ (self m).
Proof.
  induction cs as [|c cs IH]; intros m W F Ni.
  - exists m. split; reflexivity.
  - cbn [forallb] in Ni. apply andb_true_iff in Ni. destruct Ni as [Nc Ni].
    apply negb_true_iff in Nc.
    inversion F as [|c' cs' Fc Fcs]; subst.
    destruct (perform_returns c m W Fc Nc) as (m1 & E1 & I1).
    destruct (IH m1 (perform_well_kept c m m1 W E1) Fcs Ni) as (m' & E' & I').
    exists m'. cbn [perform_all]. unfold bind. rewrite E1. split; [exact E'|congruence].
Qed.

Lemma calls_other_than_init_return_witness :
  exists m',
    perform_all [Call_calibrate 1 3015; Call_rdns 1 0; Call_calibrate 1 0; Call_tsc2ns 1 0 7]
                machine_near = Some (tt, m') /\
    calibrate_interval_ns_ (self m') = 3000000000.
Proof.
  apply (calls_other_than_init_return
           [Call_calibrate 1 3015; Call_rdns 1 0; Call_calibrate 1 0; Call_tsc2ns 1 0 7]
           machine_near).
  - unfold well_kept, stable. cbn. repeat split; try lia; vm_compute; discriminate.
  - repeat constructor.
  - reflexivity.
Defined.

(** ** The arithmetic of the ratio correction *)

(** X9.  When the stored [base_ns_err_] is within the clamp, as the member
    functions keep it, the integer numerator [ns_err + ns_err - base_ns_err_]
    of the correction does not wrap: it is [2 * ns_err - base_ns_err_]
    exactly, within [-3,000,000, +3,000,000]. *)
Theorem calibrate_numerator_exact (fuel : nat) (ns_uninit : Z) (m : Machine) :
  stable (self m) -> slow_path m ->
  -1000000 <= base_ns_err_ (self m) <= 1000000 ->
  exists (predicted : Z) (m' : Machine),
    let '(tsc, ns) := calibrate_sample m in
    let err := clamp_ns_err (sub64 predicted ns) in
    let numerator := 2 * err - base_ns_err_ (self m) in
    tsc2ns (S fuel) ns_uninit tsc (after_sample m) = Some (predicted, after_sample m) /\
    calibrate (S fuel) ns_uninit m = Some (tt, m') /\
    sub64 (add64 err err) (base_ns_err_ (self m)) = numerator /\
    -3000000 <= numerator <= 3000000 /\
    ns_per_tsc_ (self m') =
      fmul (ns_per_tsc_ (self m))
           (fsub one (fdiv (of_int64 numerator)
                           (fmul (of_int64 (sub64 tsc (base_tsc_ (self m))))
                                 (ns_per_tsc_ (self m))))).
Proof.
  intros St Sl Be.
  pose proof (calibrate_slow_run fuel ns_uninit m St Sl) as R.
  destruct (calibrate_sample m) as [tsc ns] eqn:Es.
  exists ns_uninit. eexists. cbn zeta.
  split; [apply tsc2ns_stable; exact St|]. split; [exact R|].
  pose proof (clamp_ns_err_range (sub64 ns_uninit ns)) as Rc.
  set (err := clamp_ns_err (sub64 ns_uninit ns)) in *.
  assert (E : sub64 (add64 err err) (base_ns_err_ (self m)) = 2 * err - base_ns_err_ (self m)).
  { unfold sub64, add64.
    rewrite (wrap64_id (err + err)) by (unfold in_int64, INT64_MIN, INT64_MAX; lia).
    rewrite wrap64_id by (unfold in_int64, INT64_MIN, INT64_MAX; lia). lia. }
  split; [exact E|]. split; [lia|].
  cbn [self ns_per_tsc_ committed]. unfold new_ratio. rewrite E. reflexivity.
Qed.

Lemma calibrate_numerator_exact_witness :
  exists m', calibrate 1 3015 machine_near = Some (tt, m') /\
             ns_per_tsc_ (self m') =
             fmul one (fsub one (fdiv (of_int64 230) (fmul (of_int64 3015) one))).
Proof.
  assert (St : stable (self machine_near)) by (split; [cbn; lia|reflexivity]).
  assert (Sl : slow_path machine_near) by (vm_compute; discriminate).
  destruct (calibrate_numerator_exact 0 3015 machine_near St Sl) as (predicted & m' & W).
  - cbn. lia.
  - assert (Es : calibrate_sample machine_near = (3015, 2900)) by (vm_compute; reflexivity).
    rewrite Es in W. cbn zeta in W. destruct W as (T & C & _ & _ & Rt).
    rewrite tsc2ns_stable in T by exact St.
    assert (predicted = 3015) by congruence. subst predicted.
    exists m'. split; [exact C|]. rewrite Rt. reflexivity.
Defined.

(** ** Degenerate ratios *)

Lemma fdiv_by_zero_not_finite (x : double) (s : bool) :
  is_finite (fdiv x (S754_zero s)) = false.
Proof. destruct x; reflexivity. Qed.

Lemma fdiv_by_nan_not_finite (x : double) : is_finite (fdiv x S754_nan) = false.
Proof. destruct x; reflexivity. Qed.

Lemma fsub_not_finite (x y : double) : is_finite y = false -> is_finite (fsub x y) = false.
Proof.
  destruct y as [s|[|]| |s my ey]; try discriminate; intros _;
    destruct x as [t|[|]| |t mx ex]; reflexivity.
Qed.

(** The product of the conversion of 0 and any ratio is a zero or NaN. *)
Lemma fmul_zero_ticks (r : double) :
  (exists s, fmul (of_int64 0) r = S754_zero s) \/ fmul (of_int64 0) r = S754_nan.
Proof. destruct r as [s|s| |s mr er]; cbn; eauto. Qed.

Lemma fdiv_zero_ticks_not_finite (x r : double) :
  is_finite (fdiv x (fmul (of_int64 0) r)) = false.
Proof.
  destruct (fmul_zero_ticks r) as [[s ->]| ->];
    [apply fdiv_by_zero_not_finite|apply fdiv_by_nan_not_finite].
Qed.

(** X10.  A slow-path [calibrate] whose sampled tick equals [base_tsc_] (no
    tick has elapsed since the last commit) divides by zero: whatever the
    error and the ratio, the ratio it commits is an infinity or NaN. *)
Theorem calibrate_without_elapsed_ticks (fuel : nat) (ns_uninit : Z) (m : Machine) :
  stable (self m) -> slow_path m ->
  fst (calibrate_sample m) = base_tsc_ (self m) ->
  exists m',
    calibrate (S fuel) ns_uninit m = Some (tt, m') /\
    is_finite (ns_per_tsc_ (self m')) = false.
Proof.
  intros St Sl Same.
  pose proof (calibrate_slow_run fuel ns_uninit m St Sl) as R.
  destruct (calibrate_sample m) as [tsc ns]. cbn [fst] in Same. cbn zeta in R.
  eexists. split; [exact R|]. cbn [self ns_per_tsc_ committed].
  unfold new_ratio. apply fmul_not_finite_r, fsub_not_finite.
  subst tsc. unfold sub64. rewrite Z.sub_diag. change (wrap64 0) with 0.
  apply fdiv_zero_ticks_not_finite.
Qed.

Lemma calibrate_without_elapsed_ticks_witness :
  exists m', calibrate 1 0 machine_same_tick = Some (tt, m') /\
             is_finite (ns_per_tsc_ (self m')) = false.
Proof.
  apply (calibrate_without_elapsed_ticks 0 0 machine_same_tick).
  - split; [cbn; lia|reflexivity].
  - vm_compute. discriminate.
  - vm_compute. reflexivity.
Defined.

(** X11.  [calibrate] cannot repair a degenerate ratio: from an object whose
    [ns_per_tsc_] is an infinity or NaN, every sequence of calls other than
    [init] that returns leaves [ns_per_tsc_] an infinity or NaN. *)
Theorem degenerate_ratio_persists (cs : list call) :
  forall m m' : Machine,
    well_kept (self m) ->
    is_finite (ns_per_tsc_ (self m)) = false ->
    forallb (fun c => negb (is_init c)) cs = true ->
    perform_all cs m = Some (tt, m') ->
    is_finite (ns_per_tsc_ (self m')) = false.
Proof.
  induction cs as [|c cs IH]; intros m m' W D Ni H.
  - cbn in H. unfold ret in H. injection H as <-. exact D.
  - cbn [forallb] in Ni. apply andb_true_iff in Ni. destruct Ni as [Nc Ni].
    apply negb_true_iff in Nc.
    cbn [perform_all] in H. unfold bind in H.
    destruct (perform c m) as [[[] m1]|] eqn:E; [|discriminate].
    apply (IH m1 m'); try assumption.
    + now apply (perform_well_kept c m m1).
    + destruct c; try discriminate Nc;
        try (apply perform_reader_self in E; [rewrite E; exact D|exact I]).
      cbn [perform] in E. apply calibrate_result in E; [|exact (proj1 W)].
      destruct E as [->|(ns & err & _ & ->)]; [exact D|].
      cbn [ns_per_tsc_ committed]. unfold new_ratio. now apply fmul_not_finite_l.
Qed.

Lemma degenerate_ratio_persists_witness :
  exists m',
    perform_all [Call_calibrate 1 0; Call_calibrate 1 0; Call_rdns 1 0]
                (mkMachine (set_ns_per_tsc S754_nan snapshot_1ghz) clocks_near [])
    = Some (tt, m') /\
    is_finite (ns_per_tsc_ (self m')) = false.
Proof.
  assert (W : well_kept (set_ns_per_tsc S754_nan snapshot_1ghz)).
  { unfold well_kept, stable. cbn. repeat split; try lia; vm_compute; discriminate. }
  destruct (perform_all [Call_calibrate 1 0; Call_calibrate 1 0; Call_rdns 1 0]
              (mkMachine (set_ns_per_tsc S754_nan snapshot_1ghz) clocks_near []))
    as [[[] m']|] eqn:E.
  - exists m'. split; [reflexivity|].
    apply (degenerate_ratio_persists
             [Call_calibrate 1 0; Call_calibrate 1 0; Call_rdns 1 0]
             (mkMachine (set_ns_per_tsc S754_nan snapshot_1ghz) clocks_near [])
             m' W eq_refl eq_refl E).
  - exfalso. vm_compute in E. discriminate E.
Defined.

(** X12.  When the two synchronized samples of [init] carry the same tick
    (a counter that does not advance during the wait), [init] divides by
    zero and commits a ratio that is an infinity or NaN. *)
Theorem init_with_stalled_counter
    (k fuel : nat) (init_calibrate_ns calibrate_interval_ns : Z) (m : Machine) :
  let waiting := advance 4 3 (env m) in
  let expire_ns := add64 (snd (sync_of (env m))) init_calibrate_ns in
  (k < fuel)%nat ->
  (forall j, (j < k)%nat -> sys_at waiting j < expire_ns) ->
  expire_ns <= sys_at waiting k ->
  fst (sync_of (advance 0 (S k) waiting)) = fst (sync_of (env m)) ->
  exists m',
    init fuel init_calibrate_ns calibrate_interval_ns m = Some (tt, m') /\
    is_finite (ns_per_tsc_ (self m')) = false.
Proof.
  intros waiting expire_ns Hf Hb He Same.
  pose proof (init_run k fuel init_calibrate_ns calibrate_interval_ns m) as R.
  unfold waiting, expire_ns in *.
  destruct (sync_of (env m)) as [base_tsc base_ns]. cbn [fst snd] in *. cbn zeta in R.
  specialize (R Hf Hb He).
  destruct (sync_of (advance 0 (S k) (advance 4 3 (env m)))) as [delayed_tsc delayed_ns].
  cbn [fst] in Same. subst delayed_tsc.
  eexists. split; [exact R|]. cbn [self ns_per_tsc_ committed].
  unfold sub64 at 2. rewrite Z.sub_diag. change (wrap64 0) with 0.
  apply fdiv_by_zero_not_finite.
Qed.

Lemma init_with_stalled_counter_witness :
  exists m', init 10 40 3000000000 machine_frozen_counter = Some (tt, m') /\
             is_finite (ns_per_tsc_ (self m')) = false.
Proof.
  apply (init_with_stalled_counter 3 10 40 3000000000 machine_frozen_counter).
  - lia.
  - intros j Hj. assert (j = 0 \/ j = 1 \/ j = 2)%nat as [-> | [-> | ->]] by lia;
      vm_compute; reflexivity.
  - vm_compute. discriminate.
  - vm_compute. reflexivity.
Defined.

(** ** One commit seen by a concurrent reader *)

Lemma saveParam_as_steps (base_tsc sys_ns base_ns_err : Z) (r : double) (m : Machine) :
  saveParam base_tsc sys_ns base_ns_err r m
  = run_steps (saveParam_steps base_tsc sys_ns base_ns_err r) m.
Proof. destruct m as [o c l]. reflexivity. Qed.

(** The eight objects of the timeline of a commit. *)
Lemma saveParam_timeline (base_tsc sys_ns base_ns_err : Z) (r : double) (m : Machine) :
  let o := self m in
  let o1 := set_base_ns_err base_ns_err o in
  let o2 := set_next_calibrate_tsc
              (add64 base_tsc
                     (to_int64 (fdiv (of_int64 (sub64 (calibrate_interval_ns_ o) 1000)) r)))
              o1 in
  let o3 := set_param_seq (u32 (param_seq_ o + 1)) o2 in
  let o4 := set_base_tsc base_tsc o3 in
  let o5 := set_base_ns (add64 sys_ns base_ns_err) o4 in
  let o6 := set_ns_per_tsc r o5 in
  timeline (saveParam_steps base_tsc sys_ns base_ns_err r) m
  = [o; o1; o2; o3; o4; o5; o6; committed o base_tsc sys_ns base_ns_err r].
Proof.
  destruct m as [o c l]. cbn. unfold committed. cbn.
  rewrite u32_succ_succ. reflexivity.
Qed.

Lemma mask_bit (n : Z) : 0 < n < 32 -> Z.testbit (2 ^ 32 - 2) n = true.
Proof.
  intros H.
  assert (n = 1 \/ n = 2 \/ n = 3 \/ n = 4 \/ n = 5 \/ n = 6 \/ n = 7 \/ n = 8 \/
          n = 9 \/ n = 10 \/ n = 11 \/ n = 12 \/ n = 13 \/ n = 14 \/ n = 15 \/
          n = 16 \/ n = 17 \/ n = 18 \/ n = 19 \/ n = 20 \/ n = 21 \/ n = 22 \/
          n = 23 \/ n = 24 \/ n = 25 \/ n = 26 \/ n = 27 \/ n = 28 \/ n = 29 \/
          n = 30 \/ n = 31) as C by lia.
  repeat (destruct C as [->|C]; [reflexivity|]). subst n. reflexivity.
Qed.

(** [x & ~1] clears the low bit of a [uint32_t]. *)
Lemma land_mask_u32 (x : Z) : 0 <= x < 2 ^ 32 -> Z.land x (2 ^ 32 - 2) = 2 * (x / 2).
Proof.
  intros R. apply Z.bits_inj'. intros n Hn. rewrite Z.land_spec.
  destruct (Z.eq_dec n 0) as [->|N0].
  - rewrite Z.testbit_even_0. apply andb_false_r.
  - replace n with (Z.succ (n - 1)) at 3 by lia.
    rewrite Z.testbit_even_succ by lia.
    rewrite Z.div2_bits by lia.
    replace (Z.succ (n - 1)) with n by lia.
    destruct (Z_lt_le_dec n 32) as [L|G].
    + rewrite mask_bit by lia. apply andb_true_r.
    + replace (Z.testbit x n) with false; [reflexivity|].
      symmetry. destruct (Z.eq_dec x 0) as [->|X0]; [apply Z.bits_0|].
      apply Z.bits_above_log2; [lia|].
      assert (Z.log2 x < 32); [|lia]. apply Z.log2_lt_pow2; lia.
Qed.

Section OneCommit.

Variables (base_tsc sys_ns base_ns_err : Z) (r : double) (m : Machine).
Hypothesis St : stable (self m).

Let tl : list TSCNS := timeline (saveParam_steps base_tsc sys_ns base_ns_err r) m.
Let s : Z := param_seq_ (self m).

(** Before the first store to the sequence number. *)
Lemma at_time_early (i : nat) :
  (i <= 2)%nat ->
  param_seq_ (at_time tl i) = s /\
  base_tsc_ (at_time tl i) = base_tsc_ (self m) /\
  base_ns_ (at_time tl i) = base_ns_ (self m) /\
  ns_per_tsc_ (at_time tl i) = ns_per_tsc_ (self m).
Proof.
  intros H. unfold tl, at_time. rewrite saveParam_timeline. cbn zeta.
  assert (i = 0 \/ i = 1 \/ i = 2)%nat as [-> | [-> | ->]] by lia; cbn; auto.
Qed.

(** Between the two stores to the sequence number. *)
Lemma at_time_middle (i : nat) :
  (3 <= i <= 6)%nat -> param_seq_ (at_time tl i) = s + 1.
Proof.
  intros H. unfold tl, at_time. rewrite saveParam_timeline. cbn zeta.
  destruct St as [R E].
  assert (Z.odd (s + 1) = true) as O
    by (rewrite Z.odd_add, <- Z.negb_even; unfold s; rewrite E; reflexivity).
  assert (s + 1 < 2 ^ 32) as U.
  { destruct (Z.eq_dec (s + 1) (2 ^ 32)) as [Eq|]; [|unfold s in *; lia].
    rewrite Eq in O. discriminate O. }
  assert (u32 (s + 1) = s + 1) as Es by (unfold u32; apply Z.mod_small; unfold s in *; lia).
  assert (i = 3 \/ i = 4 \/ i = 5 \/ i = 6)%nat as [-> | [-> | [-> | ->]]] by lia;
    cbn; exact Es.
Qed.

(** After the second store to the sequence number. *)
Lemma at_time_late (i : nat) :
  (7 <= i)%nat ->
  at_time tl i = committed (self m) base_tsc sys_ns base_ns_err r.
Proof.
  intros H. unfold tl, at_time. rewrite saveParam_timeline. cbn zeta.
  destruct (Nat.eq_dec i 7) as [->|N7]; [reflexivity|].
  rewrite nth_overflow by (cbn; lia). reflexivity.
Qed.

Lemma seq_after_commit_differs : u32 (s + 2) <> s.
Proof.
  destruct St as [R E]. fold s in R. unfold u32.
  destruct (Z_lt_le_dec (s + 2) (2 ^ 32)) as [L|G].
  - rewrite Z.mod_small by lia. lia.
  - replace (s + 2) with (s + 2 - 2 ^ 32 + 1 * 2 ^ 32) by lia.
    rewrite Z.mod_add by lia. rewrite Z.mod_small by lia. lia.
Qed.

End OneCommit.

(** X13.  Seqlock safety for one commit, under sequentially consistent
    interleaving.  Let a reader execute one pass of the loop of [tsc2ns]
    while [saveParam] commits: it loads the sequence number at time
    [t_before], the three snapshot fields at later times, and the sequence
    number again at time [t_after], the times being positions between the
    stores of the writer.  If the pass is accepted ([before_seq == after_seq])
    then the value it computed is the formula of the snapshot before the
    commit or the formula of the committed snapshot, never a mixture of the
    two.  (The steps are those of [saveParam]: run in sequence they are
    [saveParam].) *)
Theorem accepted_pass_is_not_torn
    (base_tsc sys_ns base_ns_err : Z) (r : double) (m : Machine)
    (t_before t_ns t_tsc t_ratio t_after : nat) (tsc : Z) :
  stable (self m) ->
  (t_before <= t_ns <= t_after)%nat ->
  (t_before <= t_tsc <= t_after)%nat ->
  (t_before <= t_ratio <= t_after)%nat ->
  saveParam base_tsc sys_ns base_ns_err r m
  = run_steps (saveParam_steps base_tsc sys_ns base_ns_err r) m /\
  let tl := timeline (saveParam_steps base_tsc sys_ns base_ns_err r) m in
  let '(before_seq, ns, after_seq) :=
    reader_pass tl t_before t_ns t_tsc t_ratio t_after tsc in
  before_seq = after_seq ->
  ns = linear_ns (self m) tsc \/
  ns = linear_ns (committed (self m) base_tsc sys_ns base_ns_err r) tsc.
Proof.
  intros St Hn Ht Hr. split; [apply saveParam_as_steps|].
  intros tl. unfold reader_pass. subst tl. intros Acc.
  pose proof St as [R E].
  destruct (Nat.le_gt_cases t_after 2) as [A2|A2].
  - (* the whole pass precedes the commit *)
    left. unfold linear_ns.
    destruct (at_time_early base_tsc sys_ns base_ns_err r m t_ns ltac:(lia)) as (_ & _ & -> & _).
    destruct (at_time_early base_tsc sys_ns base_ns_err r m t_tsc ltac:(lia)) as (_ & -> & _).
    destruct (at_time_early base_tsc sys_ns base_ns_err r m t_ratio ltac:(lia)) as (_ & _ & _ & ->).
    reflexivity.
  - destruct (Nat.le_gt_cases t_after 6) as [A6|A6].
    + (* the second load sees an odd sequence number *)
      exfalso.
      rewrite (at_time_middle base_tsc sys_ns base_ns_err r m St t_after) in Acc by lia.
      assert (Z.odd (param_seq_ (self m) + 1) = true) as O
        by (rewrite Z.odd_add, <- Z.negb_even, E; reflexivity).
      rewrite <- Acc, <- Z.bit0_odd, Z.land_spec in O.
      rewrite andb_false_r in O. discriminate O.
    + (* the second load sees the sequence number of the committed snapshot *)
      rewrite (at_time_late base_tsc sys_ns base_ns_err r m t_after) in Acc by lia.
      cbn [committed param_seq_] in Acc.
      pose proof (seq_after_commit_differs m St) as Df.
      destruct (Nat.le_gt_cases t_before 2) as [B2|B2].
      * exfalso.
        destruct (at_time_early base_tsc sys_ns base_ns_err r m t_before B2) as (Sq & _).
        rewrite Sq, (land_mask_even _ R E) in Acc. congruence.
      * destruct (Nat.le_gt_cases t_before 6) as [B6|B6].
        -- exfalso.
           rewrite (at_time_middle base_tsc sys_ns base_ns_err r m St t_before) in Acc by lia.
           assert (param_seq_ (self m) + 1 < 2 ^ 32) as U.
           { destruct (Z.eq_dec (param_seq_ (self m) + 1) (2 ^ 32)) as [Eq|]; [|lia].
             assert (Z.even (param_seq_ (self m)) = false); [|congruence].
             replace (param_seq_ (self m)) with (2 ^ 32 - 1) by lia. reflexivity. }
           rewrite land_mask_u32 in Acc by lia.
           apply Df. rewrite <- Acc.
           apply Z.even_spec in E. destruct E as [k Ek]. rewrite Ek.
           replace (2 * k + 1) with (1 + k * 2) by lia.
           rewrite Z.div_add by lia. change (1 / 2) with 0. lia.
        -- right. unfold linear_ns.
           rewrite !(at_time_late base_tsc sys_ns base_ns_err r m) by lia.
           reflexivity.
Qed.

(** A commit that doubles the ratio of the 1 GHz snapshot.  A reader whose
    first load precedes the commit and whose last load follows it is
    rejected; one whose pass follows the commit computes the formula of the
    committed snapshot, 3015 + 2 * 1985 at tick 5000. *)
Lemma accepted_pass_is_not_torn_witness :
  (let '(before_seq, _, after_seq) :=
     reader_pass (timeline (saveParam_steps 3015 2900 115 (fmul (of_int64 2) one))
                           machine_near)
                 0 2 4 6 7 5000 in
   before_seq <> after_seq) /\
  (let '(before_seq, ns, after_seq) :=
     reader_pass (timeline (saveParam_steps 3015 2900 115 (fmul (of_int64 2) one))
                           machine_near)
                 7 7 7 7 7 5000 in
   before_seq = after_seq /\ ns = 6985).
Proof.
  assert (St : stable (self machine_near)) by (split; [cbn; lia|reflexivity]).
  split.
  - vm_compute. discriminate.
  - pose proof (accepted_pass_is_not_torn 3015 2900 115 (fmul (of_int64 2) one) machine_near
                  7 7 7 7 7 5000 St ltac:(lia) ltac:(lia) ltac:(lia)) as [_ W].
    cbn zeta in W.
    destruct (reader_pass (timeline (saveParam_steps 3015 2900 115 (fmul (of_int64 2) one))
                                    machine_near)
                          7 7 7 7 7 5000) as [[b v] a] eqn:P.
    assert (b = a) as Acc by (vm_compute in P; congruence).
    split; [exact Acc|].
    destruct (W Acc) as [Old|New].
    + exfalso. vm_compute in P. injection P as _ Pv _. subst v. vm_compute in Old.
      discriminate Old.
    + rewrite New. vm_compute. reflexivity.
Defined.

(** ** How far a commit can move the base *)

(** X14.  The [base_ns_] a slow-path [calibrate] commits is within
    1,000,000 ns of the wall-clock value it sampled (the sum not leaving
    [int64_t]): a wall-clock sample that disagrees with the prediction by
    more than 1 ms is taken as it is, up to 1 ms. *)
Theorem calibrate_base_within_1ms_of_sample (fuel : nat) (ns_uninit : Z) (m : Machine) :
  stable (self m) -> slow_path m ->
  INT64_MIN + 1000000 <= snd (calibrate_sample m) <= INT64_MAX - 1000000 ->
  exists m',
    calibrate (S fuel) ns_uninit m = Some (tt, m') /\
    -1000000 <= base_ns_ (self m') - snd (calibrate_sample m) <= 1000000 /\
    base_ns_ (self m') - snd (calibrate_sample m) = base_ns_err_ (self m').
Proof.
  intros St Sl Rg.
  pose proof (calibrate_slow_run fuel ns_uninit m St Sl) as R.
  destruct (calibrate_sample m) as [tsc ns]. cbn [snd] in Rg. cbn zeta in R.
  eexists. split; [exact R|]. cbn [self base_ns_ base_ns_err_ committed snd].
  pose proof (clamp_ns_err_range (sub64 ns_uninit ns)) as Rc.
  unfold add64. rewrite wrap64_id by (unfold in_int64; lia). lia.
Qed.

Lemma calibrate_base_within_1ms_of_sample_witness :
  exists m', calibrate 1 3015 machine_jumped = Some (tt, m') /\
             base_ns_ (self m') - 10000000 = -1000000.
Proof.
  assert (St : stable (self machine_jumped)) by (split; [cbn; lia|reflexivity]).
  assert (Sl : slow_path machine_jumped) by (vm_compute; discriminate).
  assert (Es : calibrate_sample machine_jumped = (3015, 10000000)) by (vm_compute; reflexivity).
  destruct (calibrate_base_within_1ms_of_sample 0 3015 machine_jumped St Sl)
    as (m' & C & _ & D).
  - rewrite Es. vm_compute. split; discriminate.
  - exists m'. split; [exact C|]. rewrite Es in D. cbn [snd] in D. rewrite D.
    pose proof (calibrate_slow_run 0 3015 machine_jumped St Sl) as R.
    rewrite Es in R. cbn zeta in R. rewrite C in R. injection R as R.
    rewrite R. vm_compute. reflexivity.
Defined.

(** ** The sequence number counts the commits *)

Lemma seq_stores_app (l1 l2 : list event) :
  seq_stores (l1 ++ l2) = (seq_stores l1 + seq_stores l2)%nat.
Proof.
  induction l1 as [|[f s|s s'] l1 IH]; cbn; [reflexivity|exact IH|now rewrite IH].
Qed.

Lemma init_log (fuel : nat) (a b : Z) (m m' : Machine) :
  init fuel a b m = Some (tt, m') ->
  log m' = log m ++ commit_events
                      [EvStore F_calibrate_interval_ns (param_seq_ (self m));
                       EvStore F_base_ns_err (param_seq_ (self m));
                       EvStore F_next_calibrate_tsc (param_seq_ (self m))]
                      (param_seq_ (self m)).
Proof.
  unfold init, bind at 1, store. unfold bind at 1. rewrite syncTime_run.
  cbn [self env log]. destruct (sync_of (env m)) as [base_tsc base_ns].
  unfold bind at 1.
  destruct (wait_until fuel (add64 base_ns a) _) as [[[] m1]|] eqn:W; [|discriminate].
  apply wait_until_self in W. destruct W as [Ws Wl]. cbn [self log] in Ws, Wl.
  unfold bind at 1. rewrite syncTime_run.
  destruct (sync_of (env m1)) as [delayed_tsc delayed_ns].
  rewrite saveParam_run. cbn [self env log]. rewrite Ws, Wl.
  intros H. injection H as <-. cbn [log set_calibrate_interval_ns param_seq_].
  unfold commit_events. cbn. rewrite <- !app_assoc. reflexivity.
Qed.

(** What one call appends to the log: nothing, or one commit. *)
Lemma perform_log (c : call) (m m' : Machine) :
  stable (self m) -> perform c m = Some (tt, m') ->
  (self m' = self m /\ log m' = log m) \/
  (exists pre,
      seq_stores pre = 0%nat /\
      log m' = log m ++ commit_events pre (param_seq_ (self m)) /\
      param_seq_ (self m') = u32 (param_seq_ (self m) + 2)).
Proof.
  intros St H. destruct c; cbn [perform] in H.
  - right. pose proof (init_log _ _ _ _ _ H) as L.
    apply init_result in H. destruct H as [r ->].
    eexists. split; [|split; [exact L|reflexivity]]. reflexivity.
  - destruct (Z_lt_le_dec (tsc_at (env m) 0) (next_calibrate_tsc_ (self m))) as [F|S].
    + left. rewrite calibrate_fast_run in H by (unfold slow_path; lia).
      injection H as <-. auto.
    + right. destruct fuel as [|fuel].
      * exfalso. unfold calibrate, bind at 1 in H. rewrite rdtsc_run in H.
        unfold bind at 1, load in H. cbn [self] in H.
        destruct (Z.ltb_spec (tsc_at (env m) 0) (next_calibrate_tsc_ (self m))); [lia|].
        unfold bind at 1 in H. rewrite syncTime_run in H.
        destruct (sync_of _) as [tsc ns]. discriminate H.
      * rewrite calibrate_slow_run in H by assumption.
        destruct (calibrate_sample m) as [tsc ns]. cbn zeta in H. injection H as <-.
        eexists. split; [|split; reflexivity]. reflexivity.
  - left. unfold bind in H.
    destruct (tsc2ns fuel ns_uninit tsc m) as [[v m1]|] eqn:E; [|discriminate].
    apply tsc2ns_unchanged in E. destruct E as [_ ->]. unfold ret in H.
    injection H as <-. auto.
  - left. unfold rdns, bind at 1 in H. unfold bind at 1 in H. rewrite rdtsc_run in H.
    destruct (tsc2ns fuel ns_uninit _ _) as [[v m1]|] eqn:E; [|discriminate].
    apply tsc2ns_unchanged in E. destruct E as [_ ->]. unfold ret in H.
    injection H as <-. auto.
  - left. unfold bind in H. rewrite rdtsc_run in H. unfold ret in H. injection H as <-. auto.
  - left. unfold bind in H. rewrite rdsysns_run in H. unfold ret in H. injection H as <-. auto.
  - left. unfold getTscGhz, bind, load, ret in H. injection H as <-. auto.
  - left. unfold bind in H. rewrite syncTime_run in H. unfold ret in H. injection H as <-. auto.
Qed.

Lemma seq_stores_commit (pre : list event) (s : Z) :
  seq_stores pre = 0%nat -> seq_stores (commit_events pre s) = 2%nat.
Proof. intros H. unfold commit_events. rewrite seq_stores_app, H. reflexivity. Qed.

(** X16.  Over any sequence of member-function calls that returns, the log
    grows by two stores to [param_seq_] per commit, and the sequence number
    grows by twice the number [n] of commits, modulo [2^32].  Hence, as long
    as fewer than [2^31] commits took place, an unchanged sequence number
    means that no commit took place and that the object is unchanged. *)
Theorem sequence_number_counts_commits (cs : list call) :
  forall m m' : Machine,
    well_kept (self m) -> perform_all cs m = Some (tt, m') ->
    exists (evs : list event) (n : nat),
      log m' = log m ++ evs /\
      seq_stores evs = (2 * n)%nat /\
      param_seq_ (self m') = u32 (param_seq_ (self m) + 2 * Z.of_nat n) /\
      (n = 0%nat -> self m' = self m) /\
      (Z.of_nat n < 2 ^ 31 -> param_seq_ (self m') = param_seq_ (self m) ->
       self m' = self m).
Proof.
  assert (Main : forall m m' : Machine,
             well_kept (self m) -> perform_all cs m = Some (tt, m') ->
             exists (evs : list event) (n : nat),
               log m' = log m ++ evs /\
               seq_stores evs = (2 * n)%nat /\
               param_seq_ (self m') = u32 (param_seq_ (self m) + 2 * Z.of_nat n) /\
               (n = 0%nat -> self m' = self m)).
  { induction cs as [|c cs IH]; intros m m' W H.
    - cbn in H. unfold ret in H. injection H as <-.
      exists [], 0%nat. rewrite app_nil_r. destruct W as [[R _] _].
      repeat split; try reflexivity.
      cbn. rewrite Z.add_0_r. unfold u32. symmetry. apply Z.mod_small. exact R.
    - cbn [perform_all] in H. unfold bind in H.
      destruct (perform c m) as [[[] m1]|] eqn:E; [|discriminate].
      pose proof (perform_well_kept c m m1 W E) as W1.
      destruct (IH m1 m' W1 H) as (evs & n & L & Cn & Sq & Un).
      destruct (perform_log c m m1 (proj1 W) E) as [[Es El]|(pre & Cp & El & Sq1)].
      + exists evs, n. rewrite L, El, Sq, Es.
        repeat split; try assumption; try reflexivity.
        intros N0. rewrite (Un N0). exact Es.
      + exists (commit_events pre (param_seq_ (self m)) ++ evs), (S n).
        rewrite L, El, <- app_assoc. split; [reflexivity|].
        rewrite seq_stores_app, seq_stores_commit, Cn by exact Cp.
        split; [lia|]. split; [|discriminate].
        rewrite Sq, Sq1. unfold u32. rewrite Z.add_mod_idemp_l by lia.
        f_equal. lia. }
  intros m m' W H. destruct (Main m m' W H) as (evs & n & L & Cn & Sq & Un).
  exists evs, n. repeat split; try assumption.
  intros Few Same. apply Un.
  destruct W as [[R _] _]. rewrite Sq in Same. unfold u32 in Same.
  destruct (Nat.eq_dec n 0) as [N0|Nn]; [exact N0|exfalso].
  set (s := param_seq_ (self m)) in *.
  destruct (Z_lt_le_dec (s + 2 * Z.of_nat n) (2 ^ 32)) as [Lt|Ge].
  - rewrite Z.mod_small in Same by lia. lia.
  - replace (s + 2 * Z.of_nat n) with (s + 2 * Z.of_nat n - 2 ^ 32 + 1 * 2 ^ 32) in Same by lia.
    rewrite Z.mod_add in Same by lia. rewrite Z.mod_small in Same by lia. lia.
Qed.

Lemma sequence_number_counts_commits_witness :
  exists m',
    perform_all [Call_init 10 40 1000; Call_rdns 1 0; Call_calibrate 1 0]
                machine_boot = Some (tt, m') /\
    param_seq_ (self m') = 4 /\ seq_stores (log m') = 4%nat.
Proof.
  assert (W : well_kept (self machine_boot)).
  { unfold well_kept, stable. cbn. repeat split; try lia; vm_compute; discriminate. }
  destruct (perform_all [Call_init 10 40 1000; Call_rdns 1 0; Call_calibrate 1 0]
                        machine_boot) as [[[] m']|] eqn:E.
  - exists m'. split; [reflexivity|].
    destruct (sequence_number_counts_commits _ machine_boot m' W E)
      as (evs & n & L & Cn & Sq & _).
    assert (Q : option_map (fun p => (param_seq_ (self (snd p)), seq_stores (log (snd p))))
                           (Some (tt, m')) = Some (4, 4%nat))
      by (rewrite <- E; vm_compute; reflexivity).
    cbn in Q. injection Q as Q1 Q2. split; assumption.
  - exfalso. vm_compute in E. discriminate E.
Defined.
